(** * TaskFlow Memory Server: operation tracker, document store, context cache

    A shallow embedding of the three core classes of the server

      - [AsyncOperationManager]  (src/core/utils/async-manager.ts)
      - [MemoryManager]          (src/core/memory-manager.ts)
      - [ContextManager]         (src/core/context-manager.ts)

    together with the properties their specification states about them.

    Conventions of the embedding.
      - JavaScript numbers that hold times and sizes are integers here ([Z]).
      - A [Map<string, _>] is a [gmap string _].
      - [Date.now()] and the fresh [uuidv4()] are arguments of the operations
        that call them.
      - A [setTimeout] callback is an entry of an explicit list of pending
        timers, fired by [runTimers].
      - [async] methods are computations in the monad [Async]: they thread the
        state of the process and of the file system and either resolve with a
        value or reject with an error; a rejected computation keeps the
        effects it had performed before.
      - The logger is not modelled: no result depends on it. *)

From stdpp Require Import gmap strings list fin_maps.
From Stdlib Require Import ZArith Lia.

Local Open Scope Z_scope.
Local Open Scope string_scope.

(** ** Values of type [any] *)

Inductive JsValue :=
| JsUndefined
| JsNull
| JsBool (b : bool)
| JsNumber (n : Z)
| JsString (s : string).

(** * The operation tracker (async-manager.ts) *)

Module AsyncManager.

Inductive Status := pending | completed | failed.

(** [interface OperationStatus]: the optional properties are [option]s;
    [None] is a property that is not on the object. *)
Record OperationStatus := mkOperationStatus {
  status : Status;
  startTime : Z;
  endTime : option Z;
  duration : option Z;
  result : option JsValue;
  error : option string
}.

(** The argument of [failOperation]: [Error | string]. *)
Inductive ErrorArg :=
| ErrorObject (message : string)
| ErrorString (s : string).

(** The manager: its private map, and the callbacks it has handed to
    [setTimeout], each with the time at which it is due. *)
Record AsyncOperationManager := mkManager {
  operations : gmap string OperationStatus;
  timers : list (Z * string)
}.

Definition constructor : AsyncOperationManager :=
  {| operations := ∅; timers := [] |}.

(** Retention window of a finished record, in milliseconds. *)
Definition RETENTION : Z := 3600000.

Definition startOperation (operationId : string) (now : Z)
    (m : AsyncOperationManager) : string * AsyncOperationManager :=
  (operationId,
   {| operations :=
        <[operationId := {| status := pending; startTime := now;
                            endTime := None; duration := None;
                            result := None; error := None |}]> (operations m);
      timers := timers m |}).

Definition completeOperation (operationId : string) (res : JsValue) (now : Z)
    (m : AsyncOperationManager) : AsyncOperationManager :=
  match operations m !! operationId with
  | None => m
  | Some operation =>
      let endTime' := now in
      let duration' := endTime' - startTime operation in
      {| operations :=
           <[operationId := {| status := completed;
                               startTime := startTime operation;
                               endTime := Some endTime';
                               duration := Some duration';
                               result := Some res;
                               error := error operation |}]> (operations m);
         timers := timers m ++ [(now + RETENTION, operationId)] |}
  end.

Definition errorMessage (e : ErrorArg) : string :=
  match e with
  | ErrorObject message => message
  | ErrorString s => s
  end.

Definition failOperation (operationId : string) (err : ErrorArg) (now : Z)
    (m : AsyncOperationManager) : AsyncOperationManager :=
  match operations m !! operationId with
  | None => m
  | Some operation =>
      let endTime' := now in
      let duration' := endTime' - startTime operation in
      {| operations :=
           <[operationId := {| status := failed;
                               startTime := startTime operation;
                               endTime := Some endTime';
                               duration := Some duration';
                               result := result operation;
                               error := Some (errorMessage err) |}]> (operations m);
         timers := timers m ++ [(now + RETENTION, operationId)] |}
  end.

(** [this.operations.get(operationId) || null]: a stored record is an object,
    hence truthy; [None] is [null]. *)
Definition getOperationStatus (operationId : string)
    (m : AsyncOperationManager) : option OperationStatus :=
  operations m !! operationId.

Definition getOperationResult (operationId : string)
    (m : AsyncOperationManager) : option OperationStatus :=
  match operations m !! operationId with
  | None => None
  | Some operation => Some operation
  end.

(** The event loop running every callback that is due at time [now]:
    each one deletes the record of its operation. *)
Definition runTimers (now : Z) (m : AsyncOperationManager) : AsyncOperationManager :=
  {| operations :=
       foldr (fun (t : Z * string) ops => if (t.1 <=? now)%Z then delete t.2 ops else ops)
             (operations m) (timers m);
     timers := filter (fun t : Z * string => (now < t.1)%Z) (timers m) |}.

(** What the [get_operation_status] tool (src/tools/index.js) sends back for
    a record it found: the handler copies four properties. *)
Record StatusReply := mkStatusReply {
  reply_status : Status;
  reply_startTime : Z;
  reply_endTime : option Z;
  reply_duration : option Z
}.

Definition get_operation_status (operationId : string)
    (m : AsyncOperationManager) : option StatusReply :=
  match getOperationStatus operationId m with
  | None => None
  | Some st => Some {| reply_status := status st;
                       reply_startTime := startTime st;
                       reply_endTime := endTime st;
                       reply_duration := duration st |}
  end.

(** A call made on the tracker by the code that runs an operation. *)
Inductive Call :=
| Complete (operationId : string) (res : JsValue) (now : Z)
| Fail (operationId : string) (err : ErrorArg) (now : Z).

Definition call_id (c : Call) : string :=
  match c with
  | Complete i _ _ => i
  | Fail i _ _ => i
  end.

Definition call_status (c : Call) : Status :=
  match c with
  | Complete _ _ _ => completed
  | Fail _ _ _ => failed
  end.

Definition perform (m : AsyncOperationManager) (c : Call) : AsyncOperationManager :=
  match c with
  | Complete i r t => completeOperation i r t m
  | Fail i e t => failOperation i e t m
  end.

Definition performAll (cs : list Call) (m : AsyncOperationManager) : AsyncOperationManager :=
  foldl perform m cs.

(** The status that the last call on [operationId] in [cs] asks for,
    [s0] when no call of [cs] is on that id. *)
Definition lastStatus (operationId : string) (s0 : Status) (cs : list Call) : Status :=
  foldl (fun s c => if decide (call_id c = operationId) then call_status c else s) s0 cs.

End AsyncManager.

(** * The file system under the memory bank

    The collaborator behind [fs-extra]: one flat directory, the memory bank.
    [path.join(this.memoryBankPath, name)] is the entry [name] of that
    directory (names are plain file names), and the content of a file is its
    UTF-8 byte string, so that its size in bytes is the length of the string.
    An entry is a regular file or a symbolic link whose target is missing: the
    latter is listed by [readdir] and cannot be opened or [stat]ed. *)

Module Fs.

Inductive Node :=
| File (content : string)
| Dangling.

Record FileSystem := mkFileSystem {
  bank : option (gmap string Node);   (* [None]: the directory is absent *)
  readOnly : bool                     (* mounted read-only *)
}.

Inductive IOError :=
| ENOENT (syscall path : string)
| EROFS (syscall path : string).

(** [err.message] *)
Definition message (e : IOError) : string :=
  match e with
  | ENOENT syscall path =>
      "ENOENT: no such file or directory, " +:+ syscall +:+ " '" +:+ path +:+ "'"
  | EROFS syscall path =>
      "EROFS: read-only file system, " +:+ syscall +:+ " '" +:+ path +:+ "'"
  end.

Definition lookupNode (name : string) (f : FileSystem) : option Node :=
  match bank f with
  | None => None
  | Some d => d !! name
  end.

Definition ensureDir (f : FileSystem) : IOError + FileSystem :=
  match bank f with
  | Some _ => inr f
  | None =>
      if readOnly f then inl (EROFS "mkdir" ".")
      else inr {| bank := Some ∅; readOnly := readOnly f |}
  end.

Definition pathExists (name : string) (f : FileSystem) : bool :=
  match lookupNode name f with
  | Some (File _) => true
  | _ => false
  end.

Definition readFile (name : string) (f : FileSystem) : IOError + string :=
  match lookupNode name f with
  | Some (File content) => inr content
  | _ => inl (ENOENT "open" name)
  end.

Definition writeFile (name content : string) (f : FileSystem) : IOError + FileSystem :=
  if readOnly f then inl (EROFS "open" name)
  else match bank f with
       | None => inl (ENOENT "open" name)
       | Some d => inr {| bank := Some (<[name := File content]> d);
                          readOnly := readOnly f |}
       end.

Definition readdir (f : FileSystem) : IOError + list string :=
  match bank f with
  | None => inl (ENOENT "scandir" ".")
  | Some d => inr (map_to_list d).*1
  end.

(** [(await fs.stat(path)).size] *)
Definition statSize (name : string) (f : FileSystem) : IOError + Z :=
  match lookupNode name f with
  | Some (File content) => inr (Z.of_nat (String.length content))
  | _ => inl (ENOENT "stat" name)
  end.

(** The calls a process makes on the file system. *)
Inductive Call :=
| CallEnsureDir
| CallPathExists (name : string)
| CallReadFile (name : string)
| CallWriteFile (name content : string)
| CallReaddir
| CallStat (name : string).

Definition isRead (c : Call) : bool :=
  match c with
  | CallReadFile _ => true
  | _ => false
  end.

End Fs.

(** * The cache of the [lru-cache] package

    [new LRUCache({ max, ttl })] with the defaults of the package, as the
    package documents them: an entry is stale once it is older than [ttl],
    counted from the [set] that stored it ([get] does not renew it); [get]
    of a stale entry deletes it and returns [undefined]; [get] of a live
    entry makes it the most recently used; [set] of a new key into a full
    cache evicts the least recently used entry. The values kept in the
    cache are documents, strings as [writeMemoryFile] takes them. *)

Module LRU.

Record Options := mkOptions {
  max : nat;
  ttl : Z
}.

Record Entry := mkEntry {
  key : string;
  value : string;
  start : Z
}.

(** The entries of a cache, most recently used first. *)
Record LRUCache := mkLRUCache {
  entries : list Entry
}.

Definition create : LRUCache := {| entries := [] |}.

Definition hasKey (k : string) (e : Entry) : bool := String.eqb (key e) k.

Definition without (k : string) (es : list Entry) : list Entry :=
  List.filter (fun e => negb (hasKey k e)) es.

Definition delete (k : string) (c : LRUCache) : LRUCache :=
  {| entries := without k (entries c) |}.

Section WithOptions.
Variable o : Options.

Definition isStale (now : Z) (e : Entry) : bool :=
  negb (ttl o =? 0)%Z && (ttl o <? now - start e)%Z.

(** [cache.get(k)]: the value ([None] is [undefined]) and the cache after
    the call. *)
Definition get (k : string) (now : Z) (c : LRUCache) : option string * LRUCache :=
  match List.find (hasKey k) (entries c) with
  | None => (None, c)
  | Some e =>
      if isStale now e then (None, delete k c)
      else (Some (value e), {| entries := e :: without k (entries c) |})
  end.

(** [cache.set(k, v)] *)
Definition set (k v : string) (now : Z) (c : LRUCache) : LRUCache :=
  let fresh := {| key := k; value := v; start := now |} in
  match List.find (hasKey k) (entries c) with
  | Some _ => {| entries := fresh :: without k (entries c) |}
  | None =>
      let kept := if (max o <=? length (entries c))%nat
                  then List.removelast (entries c) else entries c in
      {| entries := fresh :: kept |}
  end.

(** The entry that a [get] at time [now] would return, the cache left as it
    is. *)
Definition live (k : string) (now : Z) (c : LRUCache) : option string :=
  match List.find (hasKey k) (entries c) with
  | None => None
  | Some e => if isStale now e then None else Some (value e)
  end.

End WithOptions.

End LRU.

(** * The process: state and [async] computations *)

Record World := mkWorld {
  fs : Fs.FileSystem;
  memoryBankPath : string;          (* [MemoryManager.memoryBankPath] *)
  initialized : bool;               (* [MemoryManager.initialized] *)
  contextCache : LRU.LRUCache;      (* [ContextManager.contextCache] *)
  clock : Z;                        (* the time, in milliseconds *)
  calls : list Fs.Call              (* file-system calls made so far, oldest first *)
}.

Definition setFs (f : Fs.FileSystem) (w : World) : World :=
  {| fs := f; memoryBankPath := memoryBankPath w; initialized := initialized w;
     contextCache := contextCache w; clock := clock w; calls := calls w |}.

Definition setInitialized (b : bool) (w : World) : World :=
  {| fs := fs w; memoryBankPath := memoryBankPath w; initialized := b;
     contextCache := contextCache w; clock := clock w; calls := calls w |}.

Definition setCache (c : LRU.LRUCache) (w : World) : World :=
  {| fs := fs w; memoryBankPath := memoryBankPath w; initialized := initialized w;
     contextCache := c; clock := clock w; calls := calls w |}.

Definition logCall (c : Fs.Call) (w : World) : World :=
  {| fs := fs w; memoryBankPath := memoryBankPath w; initialized := initialized w;
     contextCache := contextCache w; clock := clock w; calls := calls w ++ [c] |}.

(** Time passing between two operations. *)
Definition advance (dt : Z) (w : World) : World :=
  {| fs := fs w; memoryBankPath := memoryBankPath w; initialized := initialized w;
     contextCache := contextCache w; clock := clock w + dt; calls := calls w |}.

(** Number of [readFile] calls made so far: the reads of the store. *)
Definition storeReads (w : World) : nat :=
  length (List.filter Fs.isRead (calls w)).

Inductive Outcome (A : Type) :=
| Resolved (a : A)
| Rejected (e : Fs.IOError).
Arguments Resolved {A} a.
Arguments Rejected {A} e.

Definition Async (A : Type) : Type := World -> Outcome A * World.

Definition ret {A} (a : A) : Async A := fun w => (Resolved a, w).

Definition throw {A} (e : Fs.IOError) : Async A := fun w => (Rejected e, w).

Definition bind {A B} (m : Async A) (k : A -> Async B) : Async B :=
  fun w => match m w with
           | (Resolved a, w') => k a w'
           | (Rejected e, w') => (Rejected e, w')
           end.

Definition tryCatch {A} (m : Async A) (handler : Fs.IOError -> Async A) : Async A :=
  fun w => match m w with
           | (Resolved a, w') => (Resolved a, w')
           | (Rejected e, w') => handler e w'
           end.

Notation "x <- m ;; k" := (bind m (fun x => k))
  (at level 100, m at next level, right associativity).
Notation "m ;;; k" := (bind m (fun _ => k))
  (at level 100, right associativity).

(** [for (const x of xs) { await body(x) }] *)
Fixpoint forOf {A} (xs : list A) (body : A -> Async unit) : Async unit :=
  match xs with
  | [] => ret tt
  | x :: rest => body x ;;; forOf rest body
  end.

(** A loop, or a [reduce] over promises, that carries an accumulator: each
    step awaits the previous one, so a rejection stops the steps after it. *)
Fixpoint foldAsync {A B} (step : B -> A -> Async B) (acc : B) (xs : list A) : Async B :=
  match xs with
  | [] => ret acc
  | x :: rest => acc' <- step acc x ;; foldAsync step acc' rest
  end.

(** A call of the file system: logged, then performed on [fs]. *)
Definition fsRead {A} (c : Fs.Call) (op : Fs.FileSystem -> Fs.IOError + A) : Async A :=
  fun w => match op (fs w) with
           | inr a => (Resolved a, logCall c w)
           | inl e => (Rejected e, logCall c w)
           end.

Definition fsUpdate (c : Fs.Call) (op : Fs.FileSystem -> Fs.IOError + Fs.FileSystem) : Async unit :=
  fun w => match op (fs w) with
           | inr f => (Resolved tt, setFs f (logCall c w))
           | inl e => (Rejected e, logCall c w)
           end.

Definition fs_ensureDir : Async unit := fsUpdate Fs.CallEnsureDir Fs.ensureDir.
Definition fs_pathExists (name : string) : Async bool :=
  fsRead (Fs.CallPathExists name) (fun f => inr (Fs.pathExists name f)).
Definition fs_readFile (name : string) : Async string :=
  fsRead (Fs.CallReadFile name) (Fs.readFile name).
Definition fs_writeFile (name content : string) : Async unit :=
  fsUpdate (Fs.CallWriteFile name content) (Fs.writeFile name content).
Definition fs_readdir : Async (list string) := fsRead Fs.CallReaddir Fs.readdir.
Definition fs_stat (name : string) : Async Z := fsRead (Fs.CallStat name) (Fs.statSize name).

(** [s.endsWith(suffix)] *)
Definition endsWith (s suffix : string) : bool :=
  (String.length suffix <=? String.length s)%nat &&
  String.eqb (String.substring (String.length s - String.length suffix)
                        (String.length suffix) s) suffix.

(** * The document store (memory-manager.ts) *)

Module MemoryManager.

Record DefaultFile := mkDefaultFile { name : string; content : string }.

Definition defaultFiles : list DefaultFile :=
  [ {| name := "projectbrief.md";
       content := "# Project Brief

Define your project requirements and goals here.
" |};
    {| name := "activeContext.md";
       content := "# Active Context

Track your current focus and recent changes here.
" |};
    {| name := "progress.md";
       content := "# Progress

Document your project progress and next steps here.
" |} ].

Definition ensureDefaultFiles : Async unit :=
  forOf defaultFiles (fun file =>
    present <- fs_pathExists (name file) ;;
    if negb present then fs_writeFile (name file) (content file) else ret tt).

Definition init : Async unit :=
  fun w =>
    if initialized w then (Resolved tt, w)
    else tryCatch
           (fs_ensureDir ;;;
            ensureDefaultFiles ;;;
            (fun w' => (Resolved tt, setInitialized true w')))
           (fun error => throw error) w.

Definition readMemoryFile (fileName : string) : Async string :=
  tryCatch
    (content <- fs_readFile fileName ;; ret content)
    (fun error => throw error).

(** [path.dirname(filePath)] is the memory bank directory. *)
Definition writeMemoryFile (fileName content : string) : Async unit :=
  tryCatch
    (fs_ensureDir ;;; fs_writeFile fileName content)
    (fun error => throw error).

Definition listMemoryFiles : Async (list string) :=
  tryCatch
    (files <- fs_readdir ;; ret (List.filter (fun file => endsWith file ".md") files))
    (fun error => throw error).

(** The object returned by [getStats]. *)
Inductive StatsReply :=
| Stats (path : string) (files : nat) (totalSize : Z) (initialized : bool)
| StatsError (error : string) (initialized : bool).

(** The callback of the [reduce] in [getStats]. *)
Definition addSize (total : Z) (file : string) : Async Z :=
  size <- fs_stat file ;; ret (total + size)%Z.

Definition getStats : Async StatsReply :=
  tryCatch
    (files <- listMemoryFiles ;;
     totalSize <- foldAsync addSize 0%Z files ;;
     fun w => (Resolved (Stats (memoryBankPath w) (length files) totalSize (initialized w)), w))
    (fun err w => (Resolved (StatsError (Fs.message err) (initialized w)), w)).

End MemoryManager.

(** * The context cache (context-manager.ts) *)

Module ContextManager.

Definition CACHE_OPTIONS : LRU.Options :=
  {| LRU.max := 100;                   (* Maximum number of items in cache *)
     LRU.ttl := 1000 * 60 * 15 |}.     (* 15 minutes TTL *)

Definition constructor : LRU.LRUCache := LRU.create.

(** [this.contextCache.get(k)] and [this.contextCache.set(k, v)] at the
    current time. *)
Definition cache_get (k : string) : Async (option string) :=
  fun w => let '(v, c) := LRU.get CACHE_OPTIONS k (clock w) (contextCache w) in
           (Resolved v, setCache c w).

Definition cache_set (k v : string) : Async unit :=
  fun w => (Resolved tt, setCache (LRU.set CACHE_OPTIONS k v (clock w) (contextCache w)) w).

(** Truthiness of what [cache.get] returns: [undefined] and the empty string
    are falsy. *)
Definition truthy (v : option string) : bool :=
  match v with
  | None => false
  | Some s => negb (String.eqb s "")
  end.

Definition getContext (contextKey : string) : Async string :=
  let load :=
    tryCatch
      (content <- MemoryManager.readMemoryFile contextKey ;;
       cache_set contextKey content ;;;
       ret content)
      (fun error => throw error) in
  cachedContext <- cache_get contextKey ;;
  match cachedContext with
  | Some cached => if truthy cachedContext then ret cached else load
  | None => load
  end.

Definition updateContext (contextKey contextData : string) : Async unit :=
  tryCatch
    (MemoryManager.writeMemoryFile contextKey contextData ;;;
     cache_set contextKey contextData)
    (fun error => throw error).

Definition invalidateContext (contextKey : string) : Async unit :=
  fun w => (Resolved tt, setCache (LRU.delete contextKey (contextCache w)) w).

Definition getAllContextKeys : Async (list string) :=
  tryCatch MemoryManager.listMemoryFiles (fun error => throw error).

(** The body of the loop of [getCompleteContext]:
    [content = await this.memoryManager.readMemoryFile(file)], then
    [context.set(file, content)]. *)
Definition readInto (context : gmap string string) (file : string)
    : Async (gmap string string) :=
  content <- MemoryManager.readMemoryFile file ;;
  ret (<[file := content]> context).

Definition getCompleteContext : Async (gmap string string) :=
  tryCatch
    (files <- MemoryManager.listMemoryFiles ;;
     foldAsync readInto ∅ files)
    (fun error => throw error).

(** The aggregate as the specification words it: [get(key)], the lookup that
    consults the cache, for every key of [store.list()]. *)
Definition getAll_spec : Async (gmap string string) :=
  files <- MemoryManager.listMemoryFiles ;;
  foldAsync (fun (context : gmap string string) file =>
               content <- getContext file ;;
               ret (<[file := content]> context))
            ∅ files.

End ContextManager.

(** * Statements of the specification that are tested against the code, and
      the concrete states they are tested on *)

Module Scenario.
Import AsyncManager.

(** A terminal record is final: no later [completeOperation] or
    [failOperation] on its id changes its status, result or error. *)
Definition terminal_is_final : Prop :=
  ∀ (m : AsyncOperationManager) (c : Call) (op op' : OperationStatus),
    operations m !! call_id c = Some op →
    status op ≠ pending →
    operations (perform m c) !! call_id c = Some op' →
    status op' = status op ∧ result op' = result op ∧ error op' = error op.


(** One operation, started at time 0, completed at time 5, and then failed
    at time 9 by a late caller. *)
Definition started : AsyncOperationManager := (startOperation "op-1" 0 constructor).2.
Definition finished : AsyncOperationManager :=
  completeOperation "op-1" (JsString "done") 5 started.
Definition overwritten : AsyncOperationManager :=
  failOperation "op-1" (ErrorString "late") 9 finished.

End Scenario.

(** What reading document [n] gives, [None] when the read fails. *)
Definition readOf (f : Fs.FileSystem) (n : string) : option string :=
  match Fs.readFile n f with
  | inr content => Some content
  | inl _ => None
  end.

(** Sum of a list of sizes. *)
Definition sumZ (l : list Z) : Z := foldr Z.add 0%Z l.

(** The documents that [listMemoryFiles] keeps of a directory listing. *)
Definition markdown (names : list string) : list string :=
  List.filter (fun file => endsWith file ".md") names.


Module StoreScenario.

(** A process that has just started, its memory bank directory absent. *)
Definition fresh : World :=
  {| fs := {| Fs.bank := None; Fs.readOnly := false |};
     memoryBankPath := "./memory-bank";
     initialized := false;
     contextCache := ContextManager.constructor;
     clock := 0;
     calls := [] |}.

(** The same after [init()]. *)
Definition seeded : World := (MemoryManager.init fresh).2.

(** A bank in which [progress.md] was written by hand, next to a note that
    is not a markdown file. *)
Definition handEdited : World :=
  setFs {| Fs.bank := Some (<["progress.md" := Fs.File "my notes"]>
                             (<["todo.txt" := Fs.File "later"]> ∅));
           Fs.readOnly := false |} fresh.

(** A bank that lists a link whose target is gone. *)
Definition broken : World :=
  setFs {| Fs.bank := Some (<["a.md" := Fs.File "abc"]>
                             (<["b.md" := Fs.Dangling]> ∅));
           Fs.readOnly := false |} fresh.


End StoreScenario.

Module CacheScenario.
Import ContextManager.

(** [getCompleteContext] does what the specification says of [getAll]. *)
Definition getCompleteContext_consults_cache : Prop :=
  ∀ w : World, getCompleteContext w = getAll_spec w.

(** The seeded store after [updateContext('activeContext.md', 'X')]. *)
Definition cached : World :=
  (updateContext "activeContext.md" "X" StoreScenario.seeded).2.

(** Then the document is written behind the back of the cache. *)
Definition stale : World :=
  (MemoryManager.writeMemoryFile "activeContext.md" "Y" cached).2.

(** The seeded store after [updateContext('notes.md', '')]: the cache holds a
    live entry whose value is the empty string. *)
Definition emptied : World :=
  (updateContext "notes.md" "" StoreScenario.seeded).2.

End CacheScenario.

(** * The rest of the tracker: statistics (async-manager.ts) *)

Module TrackerStats.

(** What [calculateAverageDuration] returns: the literal [0], or the
    quotient [totalDuration / completedOps.length]. The division is the one
    of doubles; it is kept as the pair of its operands. *)
Inductive Average :=
| AverageZero
| AverageOf (totalDuration : Z) (count : nat).

(** The object returned by [getStats]. *)
Record OperationStats := mkOperationStats {
  total : nat;
  pending : nat;
  completed : nat;
  failed : nat;
  averageDuration : Average
}.

(** [Array.from(this.operations.values())]. The order of the array is not
    that of the insertions; the counts and the sum taken of it do not
    depend on the order. *)
Definition values (m : AsyncManager.AsyncOperationManager)
    : list AsyncManager.OperationStatus :=
  (map_to_list (AsyncManager.operations m)).*2.

(** [op.status === s] *)
Definition statusIs (s : AsyncManager.Status) (op : AsyncManager.OperationStatus) : bool :=
  match s, AsyncManager.status op with
  | AsyncManager.pending, AsyncManager.pending => true
  | AsyncManager.completed, AsyncManager.completed => true
  | AsyncManager.failed, AsyncManager.failed => true
  | _, _ => false
  end.

(** [op.status !== 'pending' && op.duration !== undefined] *)
Definition isTimed (op : AsyncManager.OperationStatus) : bool :=
  negb (statusIs AsyncManager.pending op) &&
  match AsyncManager.duration op with
  | Some _ => true
  | None => false
  end.

(** [op.duration || 0] *)
Definition durationOrZero (op : AsyncManager.OperationStatus) : Z :=
  match AsyncManager.duration op with
  | Some d => d
  | None => 0
  end.

Definition calculateAverageDuration (m : AsyncManager.AsyncOperationManager) : Average :=
  let completedOps := List.filter isTimed (values m) in
  if (length completedOps =? 0)%nat then AverageZero
  else
    let totalDuration :=
      foldl (fun sum op => sum + durationOrZero op) 0 completedOps in
    AverageOf totalDuration (length completedOps).

Definition getStats (m : AsyncManager.AsyncOperationManager) : OperationStats :=
  let pendingOps := List.filter (statusIs AsyncManager.pending) (values m) in
  let completedOps := List.filter (statusIs AsyncManager.completed) (values m) in
  let failedOps := List.filter (statusIs AsyncManager.failed) (values m) in
  {| total := size (AsyncManager.operations m);
     pending := length pendingOps;
     completed := length completedOps;
     failed := length failedOps;
     averageDuration := calculateAverageDuration m |}.

(** The operands of an average: sum of the durations and number of timed
    operations, both [0] for [AverageZero]. *)
Definition totalsOf (a : Average) : Z * nat :=
  match a with
  | AverageZero => (0, 0%nat)
  | AverageOf totalDuration count => (totalDuration, count)
  end.

(** The value of [Date.now()] in a call. *)
Definition call_time (c : AsyncManager.Call) : Z :=
  match c with
  | AsyncManager.Complete _ _ now => now
  | AsyncManager.Fail _ _ now => now
  end.

End TrackerStats.

(** * The mode flag (plan-act/index.ts)

    [setMode] checks its argument at run time, so the argument is any
    string here. *)

Module ModeManager.

Record ModeManager := mkModeManager {
  currentMode : string
}.

Definition constructor : ModeManager := {| currentMode := "plan" |}.

Definition getCurrentMode (m : ModeManager) : string := currentMode m.

Definition setMode (mode : string) (m : ModeManager) : ModeManager :=
  if negb (String.eqb mode "plan") && negb (String.eqb mode "act") then m
  else {| currentMode := mode |}.

Definition isPlanMode (m : ModeManager) : bool := String.eqb (currentMode m) "plan".

Definition isActMode (m : ModeManager) : bool := String.eqb (currentMode m) "act".

(** The mode that [setMode] accepts last in a sequence of calls, [m0] when
    it accepts none. *)
Definition lastAccepted (m0 : string) (modes : list string) : string :=
  foldl (fun cur mode =>
           if String.eqb mode "plan" || String.eqb mode "act" then mode else cur)
        m0 modes.

End ModeManager.

(** * The tools (tools/memory-bank-tools, tools/plan-act-tools, tools/index.js)

    A handler is the function given to [server.tool]; its arguments have
    passed the schema of the tool. It resolves with a reply, in which
    [success] is [true] or [false]. *)

Module Tools.

(** [{ success: true, ... }] with the other properties as the payload, or
    [{ success: false, error }]. *)
Inductive Reply (A : Type) :=
| Success (payload : A)
| Failure (error : string).
Arguments Success {A} payload.
Arguments Failure {A} error.

(** The replies of the tools that start an operation:
    [{ success: true, operationId, message }] or
    [{ success: false, operationId, error }]. *)
Inductive OperationReply :=
| Started (operationId message : string)
| NotDone (operationId error : string).

Definition read_memory_file (fileName : string) : Async (Reply (string * string)) :=
  tryCatch
    (content <- MemoryManager.readMemoryFile fileName ;;
     ret (Success (fileName, content)))
    (fun err => ret (Failure (Fs.message err))).

Definition write_memory_file (fileName content : string) : Async (Reply string) :=
  tryCatch
    (MemoryManager.writeMemoryFile fileName content ;;;
     ContextManager.invalidateContext fileName ;;;
     ret (Success fileName))
    (fun err => ret (Failure (Fs.message err))).

Definition list_memory_files : Async (Reply (list string)) :=
  tryCatch
    (files <- MemoryManager.listMemoryFiles ;; ret (Success files))
    (fun err => ret (Failure (Fs.message err))).

Definition update_memory_file (fileName content : string) : Async (Reply string) :=
  tryCatch
    (MemoryManager.readMemoryFile fileName ;;;
     MemoryManager.writeMemoryFile fileName content ;;;
     ContextManager.invalidateContext fileName ;;;
     ret (Success fileName))
    (fun err => ret (Failure (Fs.message err))).

(** The managers a handler works on. *)
Record Server := mkServer {
  world : World;
  asyncManager : AsyncManager.AsyncOperationManager;
  modeManager : ModeManager.ModeManager
}.

Definition retrievingMessage : string :=
  "Started retrieving Memory Bank context. Use get_operation_result with operationId to get results.".

Section Payloads.

(** [JsValue] has no objects. The plain object that a handler builds from
    the context map is [objectOf contextMap], whatever the representation
    [objectOf] of such an object as a value. *)
Variable objectOf : gmap string string -> JsValue.

(** [get_memory_bank_context]; [operationId] is the identifier that
    [startOperation] draws, and [Date.now()] is the clock of the process. *)
Definition get_memory_bank_context (operationId : string) (s : Server)
    : OperationReply * Server :=
  let started :=
    (AsyncManager.startOperation operationId (clock (world s)) (asyncManager s)).2 in
  match ContextManager.getCompleteContext (world s) with
  | (Resolved contextMap, w') =>
      (Started operationId retrievingMessage,
       {| world := w';
          asyncManager :=
            AsyncManager.completeOperation operationId (objectOf contextMap)
              (clock w') started;
          modeManager := modeManager s |})
  | (Rejected err, w') =>
      (NotDone operationId (Fs.message err),
       {| world := w';
          asyncManager :=
            AsyncManager.failOperation operationId
              (AsyncManager.ErrorObject (Fs.message err)) (clock w') started;
          modeManager := modeManager s |})
  end.

End Payloads.

(** The double quote of the messages. *)
Definition quote : string := String (Ascii.ascii_of_nat 34) EmptyString.

Definition useResult : string :=
  ". Use get_operation_result with operationId to get results.".

Section PlanAct.

(** [new Date().toISOString()], as a function of the clock. *)
Variable toISOString : Z -> string.

(** The plan object of [generate_plan] and the result object of
    [execute_task], as values: the first is built from the description of
    the task and the time, the second from the id and the description of
    the task and the time. [JsValue] has no objects, so their representation
    is left open. *)
Variable planOf : string -> string -> JsValue.
Variable executionResultOf : string -> string -> string -> JsValue.

Definition generate_plan (taskDescription : string) (includeMemoryContext : bool)
    (operationId : string) (s : Server) : OperationReply * Server :=
  let started :=
    (AsyncManager.startOperation operationId (clock (world s)) (asyncManager s)).2 in
  let mode :=
    if negb (ModeManager.isPlanMode (modeManager s))
    then ModeManager.setMode "plan" (modeManager s) else modeManager s in
  let plan := planOf taskDescription (toISOString (clock (world s))) in
  (Started operationId
     ("Started generating plan for " +:+ quote +:+ taskDescription +:+ quote +:+ useResult),
   {| world := world s;
      asyncManager :=
        AsyncManager.completeOperation operationId plan (clock (world s)) started;
      modeManager := mode |}).

Definition execute_task (taskId taskDescription : string) (useMemoryContext : bool)
    (operationId : string) (s : Server) : OperationReply * Server :=
  let started :=
    (AsyncManager.startOperation operationId (clock (world s)) (asyncManager s)).2 in
  let mode :=
    if negb (ModeManager.isActMode (modeManager s))
    then ModeManager.setMode "act" (modeManager s) else modeManager s in
  let executionResult :=
    executionResultOf taskId taskDescription (toISOString (clock (world s))) in
  (Started operationId
     ("Started executing task " +:+ quote +:+ taskDescription +:+ quote +:+ useResult),
   {| world := world s;
      asyncManager :=
        AsyncManager.completeOperation operationId executionResult
          (clock (world s)) started;
      modeManager := mode |}).

End PlanAct.

Record InsightRecord := mkInsightRecord {
  taskId : string;
  description : string;
  insights : string;
  timestamp : string
}.

Section Insights.

(** [new Date().toISOString()], as a function of the clock. *)
Variable toISOString : Z -> string.

(** What [document_insights] appends to the active context. *)
Definition insightsSection (taskId insights stamp : string) : string :=
  "

## Insights from Task " +:+ taskId +:+ "

" +:+ insights +:+ "

_Documented at " +:+ stamp +:+ "_
".

Definition document_insights (taskId taskDescription insights : string)
    (updateMemoryBank : bool) : Async (Reply InsightRecord) :=
  tryCatch
    (fun w =>
       let insightRecord :=
         {| taskId := taskId; description := taskDescription;
            insights := insights; timestamp := toISOString (clock w) |} in
       (if updateMemoryBank then
          tryCatch
            (activeContext <- ContextManager.getContext "activeContext.md" ;;
             (fun w1 =>
                let updatedContext :=
                  activeContext +:+
                  insightsSection taskId insights (toISOString (clock w1)) in
                ContextManager.updateContext "activeContext.md" updatedContext w1) ;;;
             ret (Success insightRecord))
            (fun err => ret (Failure (Fs.message err)))
        else ret (Success insightRecord)) w)
    (fun err => ret (Failure (Fs.message err))).

End Insights.

End Tools.

(** * Auxiliary definitions of the statements below *)



(** The calls that the tools make on the context manager, and time
    passing between them. *)
Inductive ContextCall :=
| DoGetContext (contextKey : string)
| DoUpdateContext (contextKey contextData : string)
| DoInvalidateContext (contextKey : string)
| DoGetAllContextKeys
| DoGetCompleteContext
| DoAdvance (dt : Z).

(** The process after a call, whether the call resolves or rejects. *)
Definition afterCall (w : World) (c : ContextCall) : World :=
  match c with
  | DoGetContext k => (ContextManager.getContext k w).2
  | DoUpdateContext k v => (ContextManager.updateContext k v w).2
  | DoInvalidateContext k => (ContextManager.invalidateContext k w).2
  | DoGetAllContextKeys => (ContextManager.getAllContextKeys w).2
  | DoGetCompleteContext => (ContextManager.getCompleteContext w).2
  | DoAdvance dt => advance dt w
  end.

Definition afterCalls (cs : list ContextCall) (w : World) : World :=
  foldl afterCall w cs.

(** The keys of the entries of a cache, most recently used first. *)
Definition cacheKeys (c : LRU.LRUCache) : list string :=
  LRU.key <$> LRU.entries c.

Module MoreScenario.

(** A process started on a read-only file system that has no memory bank. *)
Definition locked : World :=
  setFs {| Fs.bank := None; Fs.readOnly := true |} StoreScenario.fresh.

(** A server on the seeded store, its tracker holding one finished
    operation. *)
Definition server : Tools.Server :=
  {| Tools.world := StoreScenario.seeded;
     Tools.asyncManager := Scenario.finished;
     Tools.modeManager := ModeManager.constructor |}.

End MoreScenario.

(** * Properties of the operation tracker *)

Section Tracker.
Import AsyncManager.

Implicit Types (m : AsyncOperationManager) (op : OperationStatus) (c : Call).

Lemma completeOperation_lookup m i r now op :
  operations m !! i = Some op →
  operations (completeOperation i r now m) !! i =
    Some {| status := completed; startTime := startTime op;
            endTime := Some now; duration := Some (now - startTime op);
            result := Some r; error := error op |}.
Proof.
  intros Hop. unfold completeOperation. rewrite Hop. cbn.
  apply lookup_insert_eq.
Qed.

Lemma failOperation_lookup m i e now op :
  operations m !! i = Some op →
  operations (failOperation i e now m) !! i =
    Some {| status := failed; startTime := startTime op;
            endTime := Some now; duration := Some (now - startTime op);
            result := result op; error := Some (errorMessage e) |}.
Proof.
  intros Hop. unfold failOperation. rewrite Hop. cbn.
  apply lookup_insert_eq.
Qed.

Lemma completeOperation_other m i j r now :
  j ≠ i → operations (completeOperation i r now m) !! j = operations m !! j.
Proof.
  intros Hne. unfold completeOperation.
  destruct (operations m !! i); [cbn; by rewrite lookup_insert_ne | done].
Qed.

Lemma failOperation_other m i j e now :
  j ≠ i → operations (failOperation i e now m) !! j = operations m !! j.
Proof.
  intros Hne. unfold failOperation.
  destruct (operations m !! i); [cbn; by rewrite lookup_insert_ne | done].
Qed.

(** One call on a tracker that holds a record for [i]: the record stays, with
    its start time, and takes the status of the call when the call is on
    [i]. *)
Lemma perform_lookup m c i op :
  operations m !! i = Some op →
  ∃ op', operations (perform m c) !! i = Some op' ∧
         startTime op' = startTime op ∧
         status op' = (if decide (call_id c = i) then call_status c else status op).
Proof.
  intros Hop. destruct c as [j r t | j e t]; cbn [perform call_id call_status];
    case_decide as Hj; subst.
  - eexists. split; [by apply completeOperation_lookup | done].
  - exists op. by rewrite completeOperation_other.
  - eexists. split; [by apply failOperation_lookup | done].
  - exists op. by rewrite failOperation_other.
Qed.

Lemma lastStatus_not_pending i s cs :
  s ≠ pending → lastStatus i s cs ≠ pending.
Proof.
  revert s. induction cs as [| c cs IH]; intros s Hs; [done |].
  cbn. apply IH. case_decide; [by destruct c | done].
Qed.

(** C1 (as the code has it): a terminal state is not final. The status of a
    record never goes back to [pending], but every [completeOperation] and
    [failOperation] on a known id overwrites the record, whatever its
    status: [completeOperation] makes it [completed] with the new result
    and keeps the error it had, [failOperation] makes it [failed] with the
    new error message and keeps the result it had, and both set the end
    time and the duration anew. So after any sequence of such calls the
    record is still there and its status is the one asked for by the last
    call on its id, or its old status when no call was on its id. *)
Theorem last_call_wins (cs : list Call) m (i : string) op
    (r : JsValue) (e : ErrorArg) (now : Z) :
  operations m !! i = Some op →
  (∃ op', operations (performAll cs m) !! i = Some op' ∧
          status op' = lastStatus i (status op) cs ∧
          (status op ≠ pending → status op' ≠ pending)) ∧
  operations (completeOperation i r now m) !! i =
    Some {| status := completed; startTime := startTime op;
            endTime := Some now; duration := Some (now - startTime op);
            result := Some r; error := error op |} ∧
  operations (failOperation i e now m) !! i =
    Some {| status := failed; startTime := startTime op;
            endTime := Some now; duration := Some (now - startTime op);
            result := result op; error := Some (errorMessage e) |}.
Proof.
  intros Hop. split; [| split].
  - clear r e now. revert m op Hop.
    induction cs as [| c cs IH]; intros m op Hop.
    + exists op. by cbn.
    + destruct (perform_lookup m c i op Hop) as (op1 & H1 & _ & Hs1).
      destruct (IH _ _ H1) as (op' & H' & Hs' & _).
      exists op'. split; [exact H' |]. split.
      * rewrite Hs', Hs1. reflexivity.
      * intros Hnp. rewrite Hs'. apply lastStatus_not_pending.
        rewrite Hs1. case_decide; [by destruct c | done].
  - by apply completeOperation_lookup.
  - by apply failOperation_lookup.
Qed.

Lemma last_call_wins_witness :
  operations Scenario.finished !! "op-1" =
    Some {| status := completed; startTime := 0; endTime := Some 5;
            duration := Some 5; result := Some (JsString "done"); error := None |} ∧
  (∃ op', operations (performAll [Fail "op-1" (ErrorString "late") 9;
                                   Complete "op-2" JsNull 10]
                                  Scenario.finished) !! "op-1" = Some op' ∧
          status op' = failed) ∧
  operations Scenario.overwritten !! "op-1" =
    Some {| status := failed; startTime := 0; endTime := Some 9;
            duration := Some 9; result := Some (JsString "done");
            error := Some "late" |}.
Proof.
  split; [reflexivity |].
  destruct (last_call_wins [Fail "op-1" (ErrorString "late") 9;
                            Complete "op-2" JsNull 10]
              Scenario.finished "op-1"
              {| status := completed; startTime := 0; endTime := Some 5;
                 duration := Some 5; result := Some (JsString "done");
                 error := None |}
              JsNull (ErrorString "late") 9)
    as ((op' & H & Hs & _) & _ & Hfail).
  - reflexivity.
  - split; [exists op'; split; [exact H | exact Hs] | exact Hfail].
Defined.

(** C1 (as the specification states it) fails: a completed operation that is
    then failed changes from [completed] to [failed] and gains an error. *)
Lemma terminal_state_overwritten : ¬ Scenario.terminal_is_final.
Proof.
  intros H.
  destruct (H Scenario.finished (Fail "op-1" (ErrorString "late") 9)
              {| status := completed; startTime := 0; endTime := Some 5;
                 duration := Some 5; result := Some (JsString "done");
                 error := None |}
              {| status := failed; startTime := 0; endTime := Some 9;
                 duration := Some 9; result := Some (JsString "done");
                 error := Some "late" |}) as (Hs & _).
  - reflexivity.
  - discriminate.
  - reflexivity.
  - discriminate Hs.
Qed.

Lemma runTimers_deletes (ts : list (Z * string)) (ops : gmap string OperationStatus)
    (t now : Z) (i : string) :
  (t, i) ∈ ts → (t <= now)%Z →
  foldr (fun (d : Z * string) acc => if (d.1 <=? now)%Z then delete d.2 acc else acc)
        ops ts !! i = None.
Proof.
  intros Hin Hdue. induction ts as [| [t' j] ts IH]; [by apply elem_of_nil in Hin |].
  cbn. apply elem_of_cons in Hin as [Heq | Hin].
  - inversion Heq; subst. rewrite (proj2 (Z.leb_le _ _) Hdue).
    apply lookup_delete_eq.
  - specialize (IH Hin). destruct (t' <=? now)%Z; [| exact IH].
    destruct (decide (j = i)) as [-> | Hne].
    + apply lookup_delete_eq.
    + by rewrite lookup_delete_ne.
Qed.




(** C8: on an id that the record map does not hold, [completeOperation] and
    [failOperation] change nothing (neither the map nor the pending timers),
    and [getOperationStatus] and [getOperationResult] return [null]. All
    four are total functions: nothing is thrown. *)
Theorem unknown_id_is_safe m (i : string) (x : JsValue) (e : ErrorArg) (now : Z) :
  operations m !! i = None →
  completeOperation i x now m = m ∧
  failOperation i e now m = m ∧
  getOperationStatus i m = None ∧
  getOperationResult i m = None.
Proof.
  intros Hnone.
  unfold completeOperation, failOperation, getOperationStatus, getOperationResult.
  by rewrite Hnone.
Qed.

Lemma unknown_id_is_safe_witness :
  operations Scenario.finished !! "nonexistent" = None ∧
  completeOperation "nonexistent" JsNull 7 Scenario.finished = Scenario.finished ∧
  failOperation "nonexistent" (ErrorObject "boom") 7 Scenario.finished = Scenario.finished ∧
  getOperationStatus "nonexistent" Scenario.finished = None ∧
  getOperationResult "nonexistent" Scenario.finished = None.
Proof.
  split; [reflexivity |].
  apply (unknown_id_is_safe Scenario.finished "nonexistent" JsNull (ErrorObject "boom") 7).
  reflexivity.
Defined.

(** C10: [completeOperation] and [failOperation] on a known id keep the
    start time of the record, store the new end time and, as duration, the
    end time minus that start time, and leave the record of every other id
    as it was. *)
Theorem terminal_transition_frame m (i : string) op (r : JsValue) (e : ErrorArg) (now : Z) :
  operations m !! i = Some op →
  (∃ op', operations (completeOperation i r now m) !! i = Some op' ∧
          startTime op' = startTime op ∧ endTime op' = Some now ∧
          duration op' = Some (now - startTime op)) ∧
  (∃ op', operations (failOperation i e now m) !! i = Some op' ∧
          startTime op' = startTime op ∧ endTime op' = Some now ∧
          duration op' = Some (now - startTime op)) ∧
  (∀ j, j ≠ i →
     operations (completeOperation i r now m) !! j = operations m !! j ∧
     operations (failOperation i e now m) !! j = operations m !! j).
Proof.
  intros Hop. repeat split.
  - eexists. split; [by apply completeOperation_lookup | done].
  - eexists. split; [by apply failOperation_lookup | done].
  - by apply completeOperation_other.
  - by apply failOperation_other.
Qed.

Lemma terminal_transition_frame_witness :
  operations Scenario.finished !! "op-1" =
    Some {| status := completed; startTime := 0; endTime := Some 5;
            duration := Some 5; result := Some (JsString "done"); error := None |} ∧
  ∃ op', operations (failOperation "op-1" (ErrorString "late") 9 Scenario.finished)
           !! "op-1" = Some op' ∧
         startTime op' = 0 ∧ endTime op' = Some 9 ∧ duration op' = Some (9 - 0).
Proof.
  split; [reflexivity |].
  destruct (terminal_transition_frame Scenario.finished "op-1"
              {| status := completed; startTime := 0; endTime := Some 5;
                 duration := Some 5; result := Some (JsString "done");
                 error := None |}
              JsNull (ErrorString "late") 9) as (_ & Hfail & _).
  - reflexivity.
  - exact Hfail.
Defined.

End Tracker.

(** * Properties of the document store *)

Example endsWith_markdown :
  endsWith "progress.md" ".md" = true ∧ endsWith "todo.txt" ".md" = false ∧
  endsWith "md" ".md" = false ∧ endsWith ".md" ".md" = true.
Proof. by repeat split. Qed.

Example listing_keeps_markdown :
  (MemoryManager.listMemoryFiles StoreScenario.handEdited).1 = Resolved ["progress.md"].
Proof. reflexivity. Qed.

Section Store.
Import MemoryManager.

Implicit Types (w : World) (f : Fs.FileSystem).

(** Each call of the store is one call of the file system, logged; its
    [catch] block throws the error again. *)
Lemma readMemoryFile_eq fileName w :
  readMemoryFile fileName w =
    (match Fs.readFile fileName (fs w) with
     | inr content => Resolved content
     | inl e => Rejected e
     end, logCall (Fs.CallReadFile fileName) w).
Proof.
  unfold readMemoryFile, tryCatch, bind, fs_readFile, fsRead, ret, throw.
  by destruct (Fs.readFile fileName (fs w)).
Qed.

Lemma listMemoryFiles_eq w :
  listMemoryFiles w =
    (match Fs.readdir (fs w) with
     | inr names => Resolved (markdown names)
     | inl e => Rejected e
     end, logCall Fs.CallReaddir w).
Proof.
  unfold listMemoryFiles, tryCatch, bind, fs_readdir, fsRead, ret, throw.
  by destruct (Fs.readdir (fs w)).
Qed.

Lemma fs_stat_eq fileName w :
  fs_stat fileName w =
    (match Fs.statSize fileName (fs w) with
     | inr size => Resolved size
     | inl e => Rejected e
     end, logCall (Fs.CallStat fileName) w).
Proof. unfold fs_stat, fsRead. by destruct (Fs.statSize fileName (fs w)). Qed.

Lemma addSize_fold_ok f (files : list string) (sizes : list Z) :
  Forall2 (fun file size => Fs.statSize file f = inr size) files sizes →
  ∀ total w, fs w = f →
    ∃ w', foldAsync addSize total files w = (Resolved (total + sumZ sizes)%Z, w') ∧
          fs w' = f ∧ initialized w' = initialized w ∧
          memoryBankPath w' = memoryBankPath w.
Proof.
  induction 1 as [| file size files sizes Hsize _ IH]; intros total w Hf.
  - exists w. cbn. unfold ret. by rewrite Z.add_0_r.
  - cbn [foldAsync]. unfold bind at 1, addSize at 1, bind at 1.
    rewrite fs_stat_eq, Hf, Hsize. unfold ret at 1.
    destruct (IH (total + size)%Z (logCall (Fs.CallStat file) w) Hf)
      as (w' & Hrun & Hfs & Hinit & Hpath).
    exists w'. rewrite Hrun. cbn [sumZ foldr].
    rewrite Z.add_assoc. done.
Qed.

Lemma addSize_fold_fails f (before : list string) (sizes : list Z)
    (file : string) (after : list string) (e : Fs.IOError) :
  Forall2 (fun file size => Fs.statSize file f = inr size) before sizes →
  Fs.statSize file f = inl e →
  ∀ total w, fs w = f →
    ∃ w', foldAsync addSize total (before ++ file :: after)%list w = (Rejected e, w') ∧
          initialized w' = initialized w.
Proof.
  intros Hbefore Hfile.
  induction Hbefore as [| b size before sizes Hsize _ IH]; intros total w Hf.
  - cbn [app foldAsync]. unfold bind at 1, addSize at 1, bind at 1.
    rewrite fs_stat_eq, Hf, Hfile. eauto.
  - cbn [app foldAsync]. unfold bind at 1, addSize at 1, bind at 1.
    rewrite fs_stat_eq, Hf, Hsize. unfold ret at 1.
    destruct (IH (total + size)%Z (logCall (Fs.CallStat b) w) Hf) as (w' & Hrun & Hinit).
    exists w'. by rewrite Hrun.
Qed.

Lemma getStats_unfold w :
  getStats w =
    match listMemoryFiles w with
    | (Resolved files, w1) =>
        match foldAsync addSize 0%Z files w1 with
        | (Resolved totalSize, w2) =>
            (Resolved (Stats (memoryBankPath w2) (length files) totalSize (initialized w2)), w2)
        | (Rejected err, w2) =>
            (Resolved (StatsError (Fs.message err) (initialized w2)), w2)
        end
    | (Rejected err, w1) =>
        (Resolved (StatsError (Fs.message err) (initialized w1)), w1)
    end.
Proof.
  unfold getStats, tryCatch, bind.
  destruct (listMemoryFiles w) as [[files | err] w1]; [| done].
  by destruct (foldAsync addSize 0%Z files w1) as [[totalSize | err] w2].
Qed.

(** C9: [getStats()] never rejects. It resolves with
    [{path, files, totalSize, initialized}], where [files] is the number of
    listed documents and [totalSize] the sum of their sizes in bytes, when
    the listing and every [stat] succeed; when the listing fails, or the
    [stat] of a listed document fails, it resolves with
    [{error, initialized}], [error] being the message of that failure. *)
Theorem getStats_never_throws w :
  (∃ reply w', getStats w = (Resolved reply, w')) ∧
  (∀ names sizes,
     Fs.readdir (fs w) = inr names →
     Forall2 (fun file size => Fs.statSize file (fs w) = inr size) (markdown names) sizes →
     (getStats w).1 =
       Resolved (Stats (memoryBankPath w) (length (markdown names)) (sumZ sizes)
                       (initialized w))) ∧
  (∀ e, Fs.readdir (fs w) = inl e →
     (getStats w).1 = Resolved (StatsError (Fs.message e) (initialized w))) ∧
  (∀ names before sizes file after e,
     Fs.readdir (fs w) = inr names →
     markdown names = (before ++ file :: after)%list →
     Forall2 (fun file size => Fs.statSize file (fs w) = inr size) before sizes →
     Fs.statSize file (fs w) = inl e →
     (getStats w).1 = Resolved (StatsError (Fs.message e) (initialized w))).
Proof.
  repeat split.
  - rewrite getStats_unfold.
    destruct (listMemoryFiles w) as [[files | err] w1]; [| by eauto].
    destruct (foldAsync addSize 0%Z files w1) as [[totalSize | err] w2]; by eauto.
  - intros names sizes Hdir Hsizes.
    rewrite getStats_unfold, listMemoryFiles_eq, Hdir.
    destruct (addSize_fold_ok (fs w) _ _ Hsizes 0%Z (logCall Fs.CallReaddir w) eq_refl)
      as (w' & Hrun & _ & Hinit & Hpath).
    rewrite Hrun. cbn. by rewrite Hinit, Hpath.
  - intros e Hdir. by rewrite getStats_unfold, listMemoryFiles_eq, Hdir.
  - intros names before sizes file after e Hdir Hsplit Hbefore Hfile.
    rewrite getStats_unfold, listMemoryFiles_eq, Hdir, Hsplit.
    destruct (addSize_fold_fails (fs w) _ _ _ after _ Hbefore Hfile 0%Z
                (logCall Fs.CallReaddir w) eq_refl) as (w' & Hrun & Hinit).
    rewrite Hrun. cbn. by rewrite Hinit.
Qed.

Lemma getStats_never_throws_witness :
  (getStats StoreScenario.seeded).1 = Resolved (Stats "./memory-bank" 3 198 true) ∧
  (getStats StoreScenario.fresh).1 =
    Resolved (StatsError "ENOENT: no such file or directory, scandir '.'" false) ∧
  (getStats StoreScenario.broken).1 =
    Resolved (StatsError "ENOENT: no such file or directory, stat 'b.md'" false).
Proof.
  split; [| split].
  - destruct (getStats_never_throws StoreScenario.seeded) as (_ & Hok & _ & _).
    apply (Hok ["activeContext.md"; "progress.md"; "projectbrief.md"] [68; 64; 66]%Z).
    + reflexivity.
    + change (markdown ["activeContext.md"; "progress.md"; "projectbrief.md"])
        with ["activeContext.md"; "progress.md"; "projectbrief.md"].
      repeat (constructor; [vm_compute; reflexivity |]). constructor.
  - destruct (getStats_never_throws StoreScenario.fresh) as (_ & _ & Hdir & _).
    apply (Hdir (Fs.ENOENT "scandir" ".")). reflexivity.
  - destruct (getStats_never_throws StoreScenario.broken) as (_ & _ & _ & Hstat).
    apply (Hstat ["a.md"; "b.md"] ["a.md"] [3%Z] "b.md" [] (Fs.ENOENT "stat" "b.md")).
    + reflexivity.
    + reflexivity.
    + repeat (constructor; [vm_compute; reflexivity |]). constructor.
    + reflexivity.
Defined.






End Store.

(** * Properties of the context cache *)

Section Cache.
Import MemoryManager ContextManager.

Implicit Types (w : World) (k v : string).

Lemma storeReads_logCall (c : Fs.Call) w :
  storeReads (logCall c w) = (if Fs.isRead c then S (storeReads w) else storeReads w).
Proof.
  unfold storeReads, logCall. cbn [calls].
  rewrite List.filter_app, length_app. cbn.
  destruct (Fs.isRead c); cbn; lia.
Qed.

(** The cache of [lru-cache]: what [get] returns is the live entry, and the
    entry stored by [set] is live at the time of the [set]. *)
Lemma get_live k (now : Z) (c : LRU.LRUCache) :
  (LRU.get CACHE_OPTIONS k now c).1 = LRU.live CACHE_OPTIONS k now c.
Proof.
  unfold LRU.get, LRU.live.
  destruct (List.find (LRU.hasKey k) (LRU.entries c)) as [e |]; [| done].
  by destruct (LRU.isStale CACHE_OPTIONS now e).
Qed.

Lemma live_set k v (now : Z) (c : LRU.LRUCache) :
  LRU.live CACHE_OPTIONS k now (LRU.set CACHE_OPTIONS k v now c) = Some v.
Proof.
  unfold LRU.live, LRU.set.
  destruct (List.find (LRU.hasKey k) (LRU.entries c)); cbn [LRU.entries List.find];
    unfold LRU.hasKey at 1; cbn [LRU.key]; rewrite String.eqb_refl;
    unfold LRU.isStale; cbn [LRU.start LRU.value]; by rewrite Z.sub_diag.
Qed.

Lemma cache_get_eq k w :
  cache_get k w =
    (Resolved (LRU.live CACHE_OPTIONS k (clock w) (contextCache w)),
     setCache (LRU.get CACHE_OPTIONS k (clock w) (contextCache w)).2 w).
Proof.
  unfold cache_get. rewrite <- get_live.
  by destruct (LRU.get CACHE_OPTIONS k (clock w) (contextCache w)).
Qed.

(** A live entry that is not the empty string is returned as it is: the file
    system is not called. *)
Lemma getContext_hit k v w :
  LRU.live CACHE_OPTIONS k (clock w) (contextCache w) = Some v →
  v ≠ "" →
  ∃ w', getContext k w = (Resolved v, w') ∧ calls w' = calls w ∧ fs w' = fs w.
Proof.
  intros Hlive Hv. unfold getContext, bind at 1.
  rewrite cache_get_eq, Hlive. cbn [truthy].
  destruct (String.eqb_spec v "") as [-> | _]; [done |].
  cbn. unfold ret. eauto.
Qed.

(** When [cache.get] returns a falsy value, [undefined] or the empty string,
    the document is read from the store, once, and cached when the read
    succeeds. *)
Lemma getContext_load k w :
  truthy (LRU.live CACHE_OPTIONS k (clock w) (contextCache w)) = false →
  ∃ w', getContext k w =
          (match Fs.readFile k (fs w) with
           | inr content => Resolved content
           | inl e => Rejected e
           end, w') ∧
        calls w' = (calls w ++ [Fs.CallReadFile k])%list ∧
        fs w' = fs w ∧ clock w' = clock w ∧
        (∀ content, Fs.readFile k (fs w) = inr content →
           LRU.live CACHE_OPTIONS k (clock w') (contextCache w') = Some content).
Proof.
  intros Hfalsy. unfold getContext, bind at 1.
  rewrite cache_get_eq.
  assert (Hload : ∀ w0, fs w0 = fs w → clock w0 = clock w → calls w0 = calls w →
    ∃ w', tryCatch (content <- readMemoryFile k ;; cache_set k content ;;; ret content)
                   (fun error => throw error) w0 =
            (match Fs.readFile k (fs w) with
             | inr content => Resolved content
             | inl e => Rejected e
             end, w') ∧
          calls w' = (calls w ++ [Fs.CallReadFile k])%list ∧
          fs w' = fs w ∧ clock w' = clock w ∧
          (∀ content, Fs.readFile k (fs w) = inr content →
             LRU.live CACHE_OPTIONS k (clock w') (contextCache w') = Some content)).
  { intros w0 Hfs Hclock Hcalls. unfold tryCatch, bind at 1.
    rewrite readMemoryFile_eq, Hfs.
    destruct (Fs.readFile k (fs w)) as [e | content].
    - eexists. split; [reflexivity |]. cbn. rewrite Hcalls. by repeat split.
    - eexists. split; [reflexivity |]. cbn. rewrite Hcalls, Hclock.
      repeat split; [done |]. intros content' [= <-]. apply live_set. }
  destruct (LRU.live CACHE_OPTIONS k (clock w) (contextCache w)) as [cached |].
  - rewrite Hfalsy. by apply Hload.
  - by apply Hload.
Qed.

Lemma writeMemoryFile_eq k v w :
  writeMemoryFile k v w =
    match Fs.ensureDir (fs w) with
    | inl e => (Rejected e, logCall Fs.CallEnsureDir w)
    | inr f1 =>
        let w1 := setFs f1 (logCall Fs.CallEnsureDir w) in
        match Fs.writeFile k v f1 with
        | inl e => (Rejected e, logCall (Fs.CallWriteFile k v) w1)
        | inr f2 => (Resolved tt, setFs f2 (logCall (Fs.CallWriteFile k v) w1))
        end
    end.
Proof.
  unfold writeMemoryFile, tryCatch, bind, fs_ensureDir, fs_writeFile, fsUpdate, throw.
  destruct (Fs.ensureDir (fs w)) as [e | f1]; [done |]. cbn.
  by destruct (Fs.writeFile k v f1).
Qed.

(** A write to the store leaves the cache and the clock alone, and after a
    write that succeeded the store holds the value. *)
Lemma writeMemoryFile_frame k v w (o : Outcome unit) w1 :
  writeMemoryFile k v w = (o, w1) →
  contextCache w1 = contextCache w ∧ clock w1 = clock w ∧
  (o = Resolved tt → Fs.readFile k (fs w1) = inr v).
Proof.
  rewrite writeMemoryFile_eq.
  destruct (Fs.ensureDir (fs w)) as [e | f1]; [by intros [= <- <-] |]. cbn zeta.
  destruct (Fs.writeFile k v f1) as [e | f2] eqn:Hwrite; intros [= <- <-]; [done |].
  repeat split. intros _. cbn.
  unfold Fs.writeFile in Hwrite.
  destruct (Fs.readOnly f1); [discriminate |].
  destruct (Fs.bank f1) as [d |]; [| discriminate].
  injection Hwrite as <-. unfold Fs.readFile, Fs.lookupNode. cbn.
  by rewrite lookup_insert_eq.
Qed.

Lemma updateContext_unfold k v w :
  updateContext k v w =
    match writeMemoryFile k v w with
    | (Resolved _, w1) =>
        (Resolved tt, setCache (LRU.set CACHE_OPTIONS k v (clock w1) (contextCache w1)) w1)
    | (Rejected e, w1) => (Rejected e, w1)
    end.
Proof.
  unfold updateContext, tryCatch, bind, cache_set, throw.
  by destruct (writeMemoryFile k v w) as [[[] | e] w1].
Qed.

(** After an [updateContext] that succeeded, the cache holds the value. *)
Lemma updateContext_live k v w w1 :
  updateContext k v w = (Resolved tt, w1) →
  LRU.live CACHE_OPTIONS k (clock w1) (contextCache w1) = Some v ∧
  Fs.readFile k (fs w1) = inr v.
Proof.
  rewrite updateContext_unfold.
  destruct (writeMemoryFile k v w) as [[[] | e] w0] eqn:Hwrite; [| discriminate].
  intros [= <-]. cbn. split; [apply live_set |].
  by apply (writeMemoryFile_frame _ _ _ _ _ Hwrite).
Qed.



Lemma storeReads_after_read k w w' :
  calls w' = (calls w ++ [Fs.CallReadFile k])%list → storeReads w' = S (storeReads w).
Proof.
  intros Hcalls. unfold storeReads. rewrite Hcalls, List.filter_app, length_app.
  cbn. lia.
Qed.

(** The read-through of [getContext], for documents that are not empty: a
    key without a live entry costs one read of the store, and the
    [getContext] that follows it none. *)
Lemma getContext_read_through k content w :
  LRU.live CACHE_OPTIONS k (clock w) (contextCache w) = None →
  Fs.readFile k (fs w) = inr content → content ≠ "" →
  ∃ w1 w2, getContext k w = (Resolved content, w1) ∧
           storeReads w1 = S (storeReads w) ∧
           getContext k w1 = (Resolved content, w2) ∧
           storeReads w2 = storeReads w1.
Proof.
  intros Hmiss Hfile Hne.
  destruct (getContext_load k w) as (w1 & Hget & Hcalls & Hfs & Hclock & Hlive).
  { by rewrite Hmiss. }
  rewrite Hfile in Hget.
  destruct (getContext_hit k content w1 (Hlive _ Hfile) Hne) as (w2 & Hget2 & Hcalls2 & _).
  exists w1, w2. repeat split; [done | by eapply storeReads_after_read | done |].
  unfold storeReads. by rewrite Hcalls2.
Qed.

(** C2, where the code departs from it: a live entry whose value is the
    empty string is not returned from the cache. [if (cachedContext)] takes
    the empty string for a miss, and [getContext] reads the store. *)
Theorem getContext_empty_entry_reads_store w k :
  LRU.live CACHE_OPTIONS k (clock w) (contextCache w) = Some "" →
  storeReads (getContext k w).2 = S (storeReads w).
Proof.
  intros Hlive.
  destruct (getContext_load k w) as (w1 & Hget & Hcalls & _).
  { by rewrite Hlive. }
  rewrite Hget. cbn [snd]. by eapply storeReads_after_read.
Qed.

Lemma getContext_empty_entry_reads_store_witness :
  LRU.live CACHE_OPTIONS "notes.md" (clock CacheScenario.emptied)
           (contextCache CacheScenario.emptied) = Some "" ∧
  storeReads (getContext "notes.md" CacheScenario.emptied).2 =
    S (storeReads CacheScenario.emptied).
Proof.
  split; [reflexivity |].
  apply (getContext_empty_entry_reads_store CacheScenario.emptied "notes.md").
  reflexivity.
Defined.

(** The round trip of C6 for a value that is not the empty string: the
    [getContext] that follows [updateContext] returns the value and does
    not call the file system. *)
Lemma update_then_get k v w w1 :
  v ≠ "" →
  updateContext k v w = (Resolved tt, w1) →
  ∃ w2, getContext k w1 = (Resolved v, w2) ∧ calls w2 = calls w1 ∧ fs w2 = fs w1.
Proof.
  intros Hne Hupdate.
  destruct (updateContext_live k v w w1 Hupdate) as (Hlive & _).
  by apply getContext_hit.
Qed.

(** C6, where the code departs from it: after [updateContext(k, '')] the
    [getContext(k)] that follows does return the empty string, but it reads
    it from the store. *)
Theorem update_empty_then_get_reads_store w k w1 :
  updateContext k "" w = (Resolved tt, w1) →
  (getContext k w1).1 = Resolved "" ∧
  storeReads (getContext k w1).2 = S (storeReads w1).
Proof.
  intros Hupdate.
  destruct (updateContext_live k "" w w1 Hupdate) as (Hlive & Hfile).
  destruct (getContext_load k w1) as (w2 & Hget & Hcalls & _).
  { by rewrite Hlive. }
  rewrite Hget, Hfile. cbn [fst snd]. split; [done |].
  by eapply storeReads_after_read.
Qed.

Lemma update_empty_then_get_reads_store_witness :
  updateContext "notes.md" "" StoreScenario.seeded = (Resolved tt, CacheScenario.emptied) ∧
  (getContext "notes.md" CacheScenario.emptied).1 = Resolved "" ∧
  storeReads (getContext "notes.md" CacheScenario.emptied).2 =
    S (storeReads CacheScenario.emptied).
Proof.
  split; [reflexivity |].
  apply (update_empty_then_get_reads_store StoreScenario.seeded "notes.md").
  reflexivity.
Defined.

Lemma readInto_eq (context : gmap string string) (file : string) w :
  readInto context file w =
    (match Fs.readFile file (fs w) with
     | inr content => Resolved (<[file := content]> context)
     | inl e => Rejected e
     end, logCall (Fs.CallReadFile file) w).
Proof.
  unfold readInto, bind. rewrite readMemoryFile_eq.
  by destruct (Fs.readFile file (fs w)).
Qed.

Lemma readInto_fold_frame (files : list string) :
  ∀ (acc : gmap string string) w o w',
    foldAsync readInto acc files w = (o, w') →
    contextCache w' = contextCache w ∧ fs w' = fs w.
Proof.
  induction files as [| file files IH]; intros acc w o w'.
  - by intros [= <- <-].
  - cbn [foldAsync]. unfold bind at 1. rewrite readInto_eq.
    destruct (Fs.readFile file (fs w)) as [e | content].
    + by intros [= <- <-].
    + intros Hrest. by destruct (IH _ _ _ _ Hrest).
Qed.

Lemma readInto_fold_ok (files : list string) :
  ∀ (acc : gmap string string) w,
    (∀ n, n ∈ files → ∃ content, Fs.readFile n (fs w) = inr content) →
    ∃ context w',
      foldAsync readInto acc files w = (Resolved context, w') ∧
      storeReads w' = (storeReads w + length files)%nat ∧
      ∀ n, context !! n = if decide (n ∈ files) then readOf (fs w) n else acc !! n.
Proof.
  induction files as [| file files IH]; intros acc w Hall.
  - exists acc, w. split; [done |]. split; [cbn; lia |]. intros n.
    case_decide as Hin; [by apply elem_of_nil in Hin | done].
  - destruct (Hall file) as (content & Hfile); [by left |].
    cbn [foldAsync]. unfold bind at 1. rewrite readInto_eq, Hfile.
    destruct (IH (<[file := content]> acc) (logCall (Fs.CallReadFile file) w))
      as (context & w' & Hrun & Hreads & Hctx).
    { intros n Hn. apply Hall. by right. }
    exists context, w'. split; [exact Hrun |]. split.
    + rewrite Hreads, storeReads_logCall. cbn. lia.
    + intros n. rewrite Hctx. cbn [fs logCall].
      destruct (decide (n ∈ files)) as [Hin | Hnotin].
      * rewrite decide_True; [done | by right].
      * destruct (decide (n = file)) as [-> | Hne].
        -- rewrite lookup_insert_eq, decide_True by (by left).
           unfold readOf. by rewrite Hfile.
        -- rewrite lookup_insert_ne by done.
           rewrite decide_False; [done |].
           intros [? | ?]%elem_of_cons; done.
Qed.

Lemma readInto_fold_fails (before : list string) (file : string) (after : list string)
    (e : Fs.IOError) :
  ∀ (acc : gmap string string) w,
    (∀ n, n ∈ before → ∃ content, Fs.readFile n (fs w) = inr content) →
    Fs.readFile file (fs w) = inl e →
    (foldAsync readInto acc (before ++ file :: after)%list w).1 = Rejected e.
Proof.
  induction before as [| b before IH]; intros acc w Hall Hfile.
  - cbn [app foldAsync]. unfold bind at 1. by rewrite readInto_eq, Hfile.
  - destruct (Hall b) as (content & Hb); [by left |].
    cbn [app foldAsync]. unfold bind at 1. rewrite readInto_eq, Hb.
    apply IH; [| exact Hfile]. intros n Hn. apply Hall. by right.
Qed.

Lemma getCompleteContext_unfold w :
  getCompleteContext w =
    match Fs.readdir (fs w) with
    | inr names => foldAsync readInto ∅ (markdown names) (logCall Fs.CallReaddir w)
    | inl e => (Rejected e, logCall Fs.CallReaddir w)
    end.
Proof.
  unfold getCompleteContext, tryCatch, bind at 1. rewrite listMemoryFiles_eq.
  destruct (Fs.readdir (fs w)) as [e | names]; [done |].
  by destruct (foldAsync _ _ _ _) as [[context | e] w'].
Qed.

(** C3 (as the code has it): [getCompleteContext()] goes to the store for
    every key of the listing, [readMemoryFile(key)], one read a key, and
    neither consults the cache nor puts anything into it. When every read
    succeeds the result maps each listed name to the content of its
    document in the store, and holds nothing else. When the read of one
    document fails, the whole call rejects with the error of that read:
    there is no partial result. *)
Theorem getCompleteContext_reads_store w :
  (∀ o w', getCompleteContext w = (o, w') → contextCache w' = contextCache w) ∧
  (∀ names,
     Fs.readdir (fs w) = inr names →
     (∀ n, n ∈ markdown names → ∃ content, Fs.readFile n (fs w) = inr content) →
     ∃ context w',
       getCompleteContext w = (Resolved context, w') ∧
       storeReads w' = (storeReads w + length (markdown names))%nat ∧
       ∀ n content, context !! n = Some content ↔
                    n ∈ markdown names ∧ Fs.readFile n (fs w) = inr content) ∧
  (∀ names before file after e,
     Fs.readdir (fs w) = inr names →
     markdown names = (before ++ file :: after)%list →
     (∀ n, n ∈ before → ∃ content, Fs.readFile n (fs w) = inr content) →
     Fs.readFile file (fs w) = inl e →
     (getCompleteContext w).1 = Rejected e).
Proof.
  split; [| split].
  - intros o w'. rewrite getCompleteContext_unfold.
    destruct (Fs.readdir (fs w)) as [e | names]; [by intros [= <- <-] |].
    intros Hrun. by destruct (readInto_fold_frame _ _ _ _ _ Hrun).
  - intros names Hdir Hall. rewrite getCompleteContext_unfold, Hdir.
    destruct (readInto_fold_ok (markdown names) ∅ (logCall Fs.CallReaddir w) Hall)
      as (context & w' & Hrun & Hreads & Hctx).
    exists context, w'. split; [exact Hrun |]. split.
    + by rewrite Hreads, storeReads_logCall.
    + intros n content. rewrite Hctx. cbn [fs logCall]. unfold readOf.
      case_decide as Hin.
      * destruct (Fs.readFile n (fs w)) as [e | c]; split.
        -- done.
        -- by intros [_ [=]].
        -- by intros [= ->].
        -- by intros [_ [= ->]].
      * rewrite lookup_empty. split; [done | by intros [? _]].
  - intros names before file after e Hdir Hsplit Hall Hfile.
    rewrite getCompleteContext_unfold, Hdir, Hsplit.
    by apply readInto_fold_fails.
Qed.

Lemma getCompleteContext_reads_store_witness :
  (∃ context w',
     getCompleteContext CacheScenario.stale = (Resolved context, w') ∧
     storeReads w' = (storeReads CacheScenario.stale + 3)%nat ∧
     ∀ n content, context !! n = Some content ↔
       n ∈ ["activeContext.md"; "progress.md"; "projectbrief.md"] ∧
       Fs.readFile n (fs CacheScenario.stale) = inr content) ∧
  (getCompleteContext StoreScenario.broken).1 = Rejected (Fs.ENOENT "open" "b.md").
Proof.
  split.
  - destruct (getCompleteContext_reads_store CacheScenario.stale) as (_ & Hok & _).
    apply (Hok ["activeContext.md"; "progress.md"; "projectbrief.md"]); [reflexivity |].
    change (markdown ["activeContext.md"; "progress.md"; "projectbrief.md"])
      with ["activeContext.md"; "progress.md"; "projectbrief.md"].
    intros n Hn.
    repeat (apply elem_of_cons in Hn as [-> | Hn]; [eexists; vm_compute; reflexivity |]).
    by apply elem_of_nil in Hn.
  - destruct (getCompleteContext_reads_store StoreScenario.broken) as (_ & _ & Hfail).
    apply (Hfail ["a.md"; "b.md"] ["a.md"] "b.md" []); [reflexivity | reflexivity | | reflexivity].
    intros n Hn.
    repeat (apply elem_of_cons in Hn as [-> | Hn]; [eexists; vm_compute; reflexivity |]).
    by apply elem_of_nil in Hn.
Defined.

(** C3 (as the specification states it) fails: with ['X'] cached for
    [activeContext.md] and ['Y'] in the store, [getCompleteContext] reads the
    three documents from the store, where the lookup that consults the cache
    reads two. *)
Lemma getCompleteContext_bypasses_cache :
  ¬ CacheScenario.getCompleteContext_consults_cache.
Proof.
  intros H. specialize (H CacheScenario.stale).
  apply (f_equal (fun r : Outcome (gmap string string) * World => storeReads r.2)) in H.
  vm_compute in H. discriminate H.
Qed.

End Cache.

(** * More of the operation tracker: life cycle, retention, statistics *)

Section TrackerLife.
Import AsyncManager.

Implicit Types (m : AsyncOperationManager) (op : OperationStatus) (c : Call).

(** X1: the life cycle of an operation. [startOperation] returns the id it
    was given and stores a pending record with the start time; a
    [completeOperation] after it makes the record [completed] with the
    result, a [failOperation] makes it [failed] with the message of the
    error, both with the duration counted from the start. [startOperation]
    schedules no deletion and touches no other record. *)
Theorem tracker_lifecycle m (i : string) (t1 t2 : Z) (r : JsValue) (e : ErrorArg) :
  let m1 := (startOperation i t1 m).2 in
  (startOperation i t1 m).1 = i ∧
  getOperationStatus i m1 =
    Some {| status := pending; startTime := t1; endTime := None;
            duration := None; result := None; error := None |} ∧
  getOperationResult i (completeOperation i r t2 m1) =
    Some {| status := completed; startTime := t1; endTime := Some t2;
            duration := Some (t2 - t1); result := Some r; error := None |} ∧
  getOperationResult i (failOperation i e t2 m1) =
    Some {| status := failed; startTime := t1; endTime := Some t2;
            duration := Some (t2 - t1); result := None;
            error := Some (errorMessage e) |} ∧
  timers m1 = timers m ∧
  (∀ j, j ≠ i → getOperationStatus j m1 = getOperationStatus j m).
Proof.
  cbn zeta.
  assert (Hstart : operations (startOperation i t1 m).2 !! i =
    Some {| status := pending; startTime := t1; endTime := None;
            duration := None; result := None; error := None |}).
  { cbn. apply lookup_insert_eq. }
  split; [done |]. split; [exact Hstart |]. split; [| split; [| split]].
  - unfold getOperationResult.
    by rewrite (completeOperation_lookup _ _ _ _ _ Hstart).
  - unfold getOperationResult.
    by rewrite (failOperation_lookup _ _ _ _ _ Hstart).
  - done.
  - intros j Hj. unfold getOperationStatus. cbn. by rewrite lookup_insert_ne.
Qed.

Lemma tracker_lifecycle_witness :
  "op-1" ≠ "op-2" ∧
  getOperationStatus "op-1" (startOperation "op-2" 7 Scenario.finished).2 =
    getOperationStatus "op-1" Scenario.finished.
Proof.
  split; [discriminate |].
  destruct (tracker_lifecycle Scenario.finished "op-2" 7 9 JsNull (ErrorString "late"))
    as (_ & _ & _ & _ & _ & Hother).
  apply Hother. discriminate.
Defined.

Lemma runTimers_keeps (ts : list (Z * string)) (ops : gmap string OperationStatus)
    (now : Z) (i : string) :
  (∀ t, (t, i) ∈ ts → (now < t)%Z) →
  foldr (fun (d : Z * string) acc => if (d.1 <=? now)%Z then delete d.2 acc else acc)
        ops ts !! i = ops !! i.
Proof.
  induction ts as [| [t j] ts IH]; intros Hlater; [done |].
  cbn. assert (Htail : ∀ t', (t', i) ∈ ts → (now < t')%Z).
  { intros t' Hin. apply Hlater. by right. }
  destruct (Z.leb_spec t now) as [Hdue | Hnot]; [| by apply IH].
  destruct (decide (j = i)) as [-> | Hne].
  - specialize (Hlater t (list_elem_of_here _ _)). lia.
  - rewrite lookup_delete_ne by done. by apply IH.
Qed.

(** X2: retention. A record that has no deletion pending and is completed
    or failed at time [t] can be read for the next hour, and is gone once
    the hour has passed and the timers have run. *)
Theorem retention_window m c op (now : Z) :
  operations m !! call_id c = Some op →
  (∀ t, (t, call_id c) ∉ timers m) →
  ((now < TrackerStats.call_time c + 3600000)%Z →
     ∃ op', getOperationResult (call_id c) (runTimers now (perform m c)) = Some op' ∧
            status op' = call_status c) ∧
  ((TrackerStats.call_time c + 3600000 <= now)%Z →
     getOperationResult (call_id c) (runTimers now (perform m c)) = None).
Proof.
  intros Hop Hnone.
  assert (Htimers : timers (perform m c) =
            (timers m ++ [(TrackerStats.call_time c + RETENTION, call_id c)])%list).
  { destruct c; cbn in Hop |- *; unfold completeOperation, failOperation; by rewrite Hop. }
  destruct (perform_lookup m c (call_id c) op Hop) as (op' & Hop' & _ & Hstatus).
  rewrite decide_True in Hstatus by done.
  split.
  - intros Hearly. exists op'. split; [| exact Hstatus].
    unfold getOperationResult, runTimers. cbn [operations].
    rewrite runTimers_keeps, Hop'; [done |].
    intros t. rewrite Htimers. intros [Hin | Hin]%elem_of_app.
    + by apply Hnone in Hin.
    + apply list_elem_of_singleton in Hin. injection Hin as ->.
      unfold RETENTION. lia.
  - intros Hlate. unfold getOperationResult, runTimers. cbn [operations].
    rewrite (runTimers_deletes _ _ (TrackerStats.call_time c + RETENTION) now); [done | |].
    + rewrite Htimers. apply elem_of_app. right. by apply list_elem_of_singleton.
    + unfold RETENTION. lia.
Qed.

Lemma retention_window_witness :
  operations Scenario.started !! "op-1" =
    Some {| status := pending; startTime := 0; endTime := None;
            duration := None; result := None; error := None |} ∧
  (∃ op', getOperationResult "op-1" (runTimers 3600004 Scenario.finished) = Some op' ∧
          status op' = completed) ∧
  getOperationResult "op-1" (runTimers 3600005 Scenario.finished) = None.
Proof.
  split; [reflexivity |].
  destruct (retention_window Scenario.started (Complete "op-1" (JsString "done") 5)
              {| status := pending; startTime := 0; endTime := None;
                 duration := None; result := None; error := None |} 3600004)
    as (Hearly & _); [reflexivity | intros t Hin; by apply elem_of_nil in Hin |].
  destruct (retention_window Scenario.started (Complete "op-1" (JsString "done") 5)
              {| status := pending; startTime := 0; endTime := None;
                 duration := None; result := None; error := None |} 3600005)
    as (_ & Hlate); [reflexivity | intros t Hin; by apply elem_of_nil in Hin |].
  split; [apply Hearly; cbn; lia | apply Hlate; cbn; lia].
Defined.

(** X3: the deletion that a terminal transition schedules is never
    cancelled. A record that was completed or failed at [t1] and completed
    or failed again later is deleted one hour after [t1], however recent
    the later calls on it are. *)
Theorem first_timer_deletes m c (cs : list Call) op (now : Z) :
  operations m !! call_id c = Some op →
  (TrackerStats.call_time c + 3600000 <= now)%Z →
  getOperationResult (call_id c) (runTimers now (performAll cs (perform m c))) = None.
Proof.
  intros Hop Hdue.
  assert (Hin : (TrackerStats.call_time c + RETENTION, call_id c) ∈ timers (perform m c)).
  { destruct c; cbn in Hop |- *; unfold completeOperation, failOperation; rewrite Hop; cbn;
      apply elem_of_app; right; by apply list_elem_of_singleton. }
  assert (Hstays : ∀ cs' m' (d : Z * string), d ∈ timers m' → d ∈ timers (performAll cs' m')).
  { induction cs' as [| c' cs' IH]; intros m' d Hd; [done |].
    cbn. apply IH. destruct c'; cbn; unfold completeOperation, failOperation;
      destruct (operations m' !! _); cbn; try done; apply elem_of_app; by left. }
  unfold getOperationResult, runTimers. cbn [operations].
  rewrite (runTimers_deletes _ _ (TrackerStats.call_time c + RETENTION) now); [done | |].
  - by apply Hstays.
  - unfold RETENTION. lia.
Qed.

Lemma first_timer_deletes_witness :
  operations Scenario.started !! "op-1" =
    Some {| status := pending; startTime := 0; endTime := None;
            duration := None; result := None; error := None |} ∧
  getOperationResult "op-1"
    (runTimers 3600005
       (performAll [Fail "op-1" (ErrorString "late") 3600000]
          (perform Scenario.started (Complete "op-1" (JsString "done") 5)))) = None.
Proof.
  split; [reflexivity |].
  apply (first_timer_deletes Scenario.started (Complete "op-1" (JsString "done") 5)
           [Fail "op-1" (ErrorString "late") 3600000]
           {| status := pending; startTime := 0; endTime := None;
              duration := None; result := None; error := None |} 3600005).
  - reflexivity.
  - cbn. lia.
Defined.

End TrackerLife.

Section TrackerStatistics.
Import AsyncManager.

Implicit Types (m : AsyncOperationManager) (op : OperationStatus) (c : Call).

Lemma filter_length_perm {A} (f : A → bool) (l l' : list A) :
  l ≡ₚ l' → length (List.filter f l) = length (List.filter f l').
Proof.
  induction 1 as [| x l l' _ IH | x y l | l l' l'' _ IH1 _ IH2]; cbn.
  - done.
  - destruct (f x); cbn; by rewrite IH.
  - by destruct (f x), (f y).
  - by rewrite IH1.
Qed.

Lemma sum_durations_from (l : list OperationStatus) (a : Z) :
  foldl (fun sum op => sum + TrackerStats.durationOrZero op) a l =
  a + foldl (fun sum op => sum + TrackerStats.durationOrZero op) 0 l.
Proof.
  revert a. induction l as [| x l IH]; intros a; cbn; [lia |].
  rewrite (IH (a + _)), (IH (0 + _)). lia.
Qed.

Lemma sum_durations_perm (f : OperationStatus → bool) (l l' : list OperationStatus) :
  l ≡ₚ l' →
  foldl (fun sum op => sum + TrackerStats.durationOrZero op) 0 (List.filter f l) =
  foldl (fun sum op => sum + TrackerStats.durationOrZero op) 0 (List.filter f l').
Proof.
  induction 1 as [| x l l' _ IH | x y l | l l' l'' _ IH1 _ IH2]; cbn.
  - done.
  - destruct (f x); cbn; [| exact IH].
    rewrite (sum_durations_from (List.filter f l)), (sum_durations_from (List.filter f l')).
    by rewrite IH.
  - destruct (f x), (f y); cbn; try done.
    rewrite (sum_durations_from _ (0 + _ + _)), (sum_durations_from _ (0 + _ + _)). lia.
  - by rewrite IH1.
Qed.

(** The records of a map in which [i] is set to [x], and those of the map
    itself, next to the records of all the other ids. *)
Lemma values_insert (ops : gmap string OperationStatus) (i : string)
    (x : OperationStatus) (ts ts' : list (Z * string)) :
  TrackerStats.values {| operations := <[i := x]> ops; timers := ts |} ≡ₚ
  x :: TrackerStats.values {| operations := delete i ops; timers := ts' |}.
Proof.
  unfold TrackerStats.values. cbn [operations].
  rewrite <- insert_delete_eq.
  rewrite map_to_list_insert by apply lookup_delete_eq. done.
Qed.

Lemma values_lookup (ops : gmap string OperationStatus) (i : string)
    (x : OperationStatus) (ts ts' : list (Z * string)) :
  ops !! i = Some x →
  TrackerStats.values {| operations := ops; timers := ts |} ≡ₚ
  x :: TrackerStats.values {| operations := delete i ops; timers := ts' |}.
Proof.
  intros Hx. unfold TrackerStats.values. cbn [operations].
  by rewrite <- (map_to_list_delete ops i x Hx).
Qed.

Lemma counts_partition (l : list OperationStatus) :
  length l =
    (length (List.filter (TrackerStats.statusIs pending) l) +
     length (List.filter (TrackerStats.statusIs completed) l) +
     length (List.filter (TrackerStats.statusIs failed) l))%nat.
Proof.
  induction l as [| [[] t0 t1 d r e] l IH]; [done | ..];
    cbn [List.filter TrackerStats.statusIs status length]; lia.
Qed.

Lemma no_timed (l : list OperationStatus) :
  (length (List.filter (TrackerStats.statusIs completed) l) +
   length (List.filter (TrackerStats.statusIs failed) l) = 0)%nat →
  List.filter TrackerStats.isTimed l = [].
Proof.
  induction l as [| [[] t0 t1 d r e] l IH]; [done | ..];
    cbn [List.filter TrackerStats.isTimed TrackerStats.statusIs status length negb andb];
    intros Hnone; try lia.
  by apply IH.
Qed.

(** X4: in the statistics of the tracker, [total] is the sum of [pending],
    [completed] and [failed], and the average is the literal [0] when no
    record is completed or failed. *)
Theorem getStats_counts m :
  let st := TrackerStats.getStats m in
  TrackerStats.total st =
    (TrackerStats.pending st + TrackerStats.completed st + TrackerStats.failed st)%nat ∧
  ((TrackerStats.completed st + TrackerStats.failed st = 0)%nat →
     TrackerStats.averageDuration st = TrackerStats.AverageZero).
Proof.
  cbn zeta. unfold TrackerStats.getStats. cbn. split.
  - rewrite <- length_map_to_list, <- counts_partition.
    unfold TrackerStats.values. by rewrite length_fmap.
  - intros Hnone. unfold TrackerStats.calculateAverageDuration.
    by rewrite (no_timed _ Hnone).
Qed.

Lemma getStats_counts_witness :
  (TrackerStats.completed (TrackerStats.getStats Scenario.started) +
   TrackerStats.failed (TrackerStats.getStats Scenario.started) = 0)%nat ∧
  TrackerStats.averageDuration (TrackerStats.getStats Scenario.started) =
    TrackerStats.AverageZero.
Proof.
  split; [vm_compute; reflexivity |].
  destruct (getStats_counts Scenario.started) as (_ & Hzero).
  apply Hzero. vm_compute. reflexivity.
Defined.

(** X5: what a transition does to the statistics. Starting an operation
    under a new id adds one to [total] and to [pending] and leaves the rest.
    Completing or failing a pending operation moves one from [pending] to
    [completed] or to [failed], leaves [total], and adds the duration of the
    operation to the sum of the average and one to its count. *)
Theorem getStats_transitions m (i : string) (now : Z) c op :
  let st := TrackerStats.getStats m in
  (operations m !! i = None →
   TrackerStats.getStats (startOperation i now m).2 =
     {| TrackerStats.total := S (TrackerStats.total st);
        TrackerStats.pending := S (TrackerStats.pending st);
        TrackerStats.completed := TrackerStats.completed st;
        TrackerStats.failed := TrackerStats.failed st;
        TrackerStats.averageDuration := TrackerStats.averageDuration st |}) ∧
  (operations m !! call_id c = Some op → status op = pending →
   let st' := TrackerStats.getStats (perform m c) in
   TrackerStats.total st' = TrackerStats.total st ∧
   S (TrackerStats.pending st') = TrackerStats.pending st ∧
   TrackerStats.completed st' =
     (if c is Complete _ _ _ then S (TrackerStats.completed st)
      else TrackerStats.completed st) ∧
   TrackerStats.failed st' =
     (if c is Fail _ _ _ then S (TrackerStats.failed st) else TrackerStats.failed st) ∧
   TrackerStats.averageDuration st' =
     TrackerStats.AverageOf
       ((TrackerStats.totalsOf (TrackerStats.averageDuration st)).1 +
        (TrackerStats.call_time c - startTime op))
       (S (TrackerStats.totalsOf (TrackerStats.averageDuration st)).2)).
Proof.
  cbn zeta. split.
  - intros Hfresh. unfold TrackerStats.getStats, TrackerStats.calculateAverageDuration.
    cbn [startOperation snd operations].
    rewrite map_size_insert_None by done.
    set (new := {| status := pending; startTime := now; endTime := None;
                   duration := None; result := None; error := None |}).
    assert (Hperm : TrackerStats.values
                      {| operations := <[i := new]> (operations m); timers := timers m |}
                    ≡ₚ new :: TrackerStats.values m).
    { unfold TrackerStats.values. cbn [operations].
      by rewrite map_to_list_insert by done. }
    rewrite !(filter_length_perm _ _ _ Hperm).
    rewrite (sum_durations_perm _ _ _ Hperm). done.
  - intros Hop Hpending.
    set (i' := call_id c) in *.
    destruct (perform_lookup m c i' op Hop) as (op' & Hop' & Hstart & Hstatus).
    rewrite decide_True in Hstatus by done.
    assert (Hops : ∃ x ts, perform m c = {| operations := <[i' := x]> (operations m);
                                            timers := ts |} ∧
                           status x = call_status c ∧
                           duration x = Some (TrackerStats.call_time c - startTime op)).
    { destruct c; cbn in Hop |- *; unfold completeOperation, failOperation;
        rewrite Hop; eexists _, _; (split; [reflexivity | done]). }
    destruct Hops as (x & ts & -> & Hx & Hd).
    pose proof (values_insert (operations m) i' x ts (timers m)) as Hnew.
    pose proof (values_lookup (operations m) i' op (timers m) (timers m) Hop) as Hold.
    replace {| operations := operations m; timers := timers m |} with m in Hold
      by by destruct m.
    set (rest := TrackerStats.values {| operations := delete i' (operations m);
                                        timers := timers m |}) in *.
    unfold TrackerStats.getStats, TrackerStats.calculateAverageDuration.
    cbn [TrackerStats.total TrackerStats.pending TrackerStats.completed
         TrackerStats.failed TrackerStats.averageDuration operations].
    rewrite !(filter_length_perm _ _ _ Hnew), !(filter_length_perm _ _ _ Hold).
    rewrite (sum_durations_perm _ _ _ Hnew), (sum_durations_perm _ _ _ Hold).
    rewrite map_size_insert_Some by done.
    destruct x as [sx x0 x1 dx xr xe]; destruct op as [so o0 o1 od or oe].
    cbn in Hx, Hd, Hpending. subst sx dx so.
    assert (Havg :
      (if (S (length (List.filter TrackerStats.isTimed rest)) =? 0)%nat
       then TrackerStats.AverageZero
       else TrackerStats.AverageOf
              (foldl (fun sum op => sum + TrackerStats.durationOrZero op)
                     (0 + (TrackerStats.call_time c - o0))
                     (List.filter TrackerStats.isTimed rest))
              (S (length (List.filter TrackerStats.isTimed rest)))) =
      TrackerStats.AverageOf
        ((TrackerStats.totalsOf
            (if (length (List.filter TrackerStats.isTimed rest) =? 0)%nat
             then TrackerStats.AverageZero
             else TrackerStats.AverageOf
                    (foldl (fun sum op => sum + TrackerStats.durationOrZero op) 0
                           (List.filter TrackerStats.isTimed rest))
                    (length (List.filter TrackerStats.isTimed rest)))).1 +
         (TrackerStats.call_time c - o0))
        (S (TrackerStats.totalsOf
              (if (length (List.filter TrackerStats.isTimed rest) =? 0)%nat
               then TrackerStats.AverageZero
               else TrackerStats.AverageOf
                      (foldl (fun sum op => sum + TrackerStats.durationOrZero op) 0
                             (List.filter TrackerStats.isTimed rest))
                      (length (List.filter TrackerStats.isTimed rest)))).2)).
    { clearbody rest. rewrite sum_durations_from.
      destruct (List.filter TrackerStats.isTimed rest) as [| y timed];
        cbn [length Nat.eqb TrackerStats.totalsOf fst snd foldl]; f_equal; lia. }
    clearbody rest.
    destruct c;
      cbn [call_status List.filter TrackerStats.isTimed TrackerStats.statusIs status
           duration length negb andb foldl TrackerStats.durationOrZero startTime];
      repeat split; exact Havg.
Qed.

Lemma getStats_transitions_witness :
  operations Scenario.started !! "op-1" =
    Some {| status := pending; startTime := 0; endTime := None;
            duration := None; result := None; error := None |} ∧
  S (TrackerStats.pending (TrackerStats.getStats Scenario.finished)) =
    TrackerStats.pending (TrackerStats.getStats Scenario.started) ∧
  TrackerStats.completed (TrackerStats.getStats Scenario.finished) =
    S (TrackerStats.completed (TrackerStats.getStats Scenario.started)) ∧
  TrackerStats.averageDuration (TrackerStats.getStats Scenario.finished) =
    TrackerStats.AverageOf
      ((TrackerStats.totalsOf
          (TrackerStats.averageDuration (TrackerStats.getStats Scenario.started))).1 +
       (5 - 0))
      (S (TrackerStats.totalsOf
            (TrackerStats.averageDuration (TrackerStats.getStats Scenario.started))).2).
Proof.
  split; [reflexivity |].
  destruct (getStats_transitions Scenario.started "op-1" 0
              (Complete "op-1" (JsString "done") 5)
              {| status := pending; startTime := 0; endTime := None;
                 duration := None; result := None; error := None |})
    as (_ & Hfinish).
  destruct Hfinish as (_ & Hp & Hc & _ & Ha); [reflexivity | reflexivity |].
  split; [exact Hp |]. split; [exact Hc | exact Ha].
Defined.

End TrackerStatistics.

(** * The mode flag *)

Section Mode.
Import ModeManager.

Lemma setMode_spec (mode : string) (m : ModeManager) :
  currentMode (setMode mode m) =
    (if String.eqb mode "plan" || String.eqb mode "act" then mode else currentMode m).
Proof.
  unfold setMode.
  by destruct (String.eqb mode "plan"), (String.eqb mode "act").
Qed.

(** X6: the mode is always [plan] or [act]. Whatever strings [setMode] is
    called with, one after the other, on a new mode manager, the current
    mode is the last of them that is ['plan'] or ['act'], ['plan'] when none
    is: a call with any other string changes nothing. So exactly one of
    [isPlanMode] and [isActMode] holds. *)
Theorem mode_always_plan_or_act (modes : list string) :
  let m := foldl (fun m mode => setMode mode m) constructor modes in
  getCurrentMode m = lastAccepted "plan" modes ∧
  (getCurrentMode m = "plan" ∨ getCurrentMode m = "act") ∧
  isPlanMode m = negb (isActMode m).
Proof.
  cbn zeta.
  assert (Hgen : ∀ m0, currentMode m0 = "plan" ∨ currentMode m0 = "act" →
            let m := foldl (fun m mode => setMode mode m) m0 modes in
            currentMode m = lastAccepted (currentMode m0) modes ∧
            (currentMode m = "plan" ∨ currentMode m = "act")).
  { induction modes as [| mode modes IH]; intros m0 Hvalid; [done |].
    cbn. unfold lastAccepted. cbn [foldl]. rewrite <- setMode_spec.
    apply IH. rewrite setMode_spec.
    destruct (String.eqb_spec mode "plan") as [-> | _]; [by left |].
    destruct (String.eqb_spec mode "act") as [-> | _]; [by right | done]. }
  destruct (Hgen constructor) as (Hlast & Hvalid); [by left |].
  unfold getCurrentMode, isPlanMode, isActMode.
  split; [exact Hlast |]. split; [exact Hvalid |].
  by destruct Hvalid as [-> | ->].
Qed.

End Mode.

(** * More of the document store *)

Section StoreMore.
Import MemoryManager.

Implicit Types (w : World) (f : Fs.FileSystem).



(** [s.endsWith(suffix)] holds of the strings that are a stem followed by
    the suffix, and of no other. *)
Lemma substring_all (s : string) : String.substring 0 (String.length s) s = s.
Proof. induction s as [| a s IH]; cbn; [done | by rewrite IH]. Qed.

Lemma append_cons (a : Ascii.ascii) (p s : string) :
  String a p +:+ s = String a (p +:+ s).
Proof. reflexivity. Qed.

Lemma substring_skip (p s : string) (n : nat) :
  String.substring (String.length p) n (p +:+ s) = String.substring 0 n s.
Proof.
  induction p as [| a p IH]; [done |].
  rewrite append_cons. cbn [String.length String.substring]. exact IH.
Qed.

Lemma length_app_string (p s : string) :
  String.length (p +:+ s) = (String.length p + String.length s)%nat.
Proof.
  induction p as [| a p IH]; [done |].
  rewrite append_cons. cbn [String.length]. by rewrite IH.
Qed.

Lemma split_at (n : nat) :
  ∀ s : string, (n <= String.length s)%nat →
    s = String.substring 0 n s +:+ String.substring n (String.length s - n) s.
Proof.
  induction n as [| n IH]; intros s Hn.
  - rewrite Nat.sub_0_r, substring_all. by destruct s.
  - destruct s as [| a s]; cbn [String.length] in Hn |- *; [lia |].
    cbn [String.substring Nat.sub]. rewrite append_cons. f_equal. apply IH. lia.
Qed.

Lemma endsWith_spec (s suffix : string) :
  endsWith s suffix = true ↔ ∃ stem, s = stem +:+ suffix.
Proof.
  unfold endsWith. rewrite andb_true_iff, Nat.leb_le, String.eqb_eq. split.
  - intros [Hlen Hsub].
    exists (String.substring 0 (String.length s - String.length suffix) s).
    pose proof (split_at (String.length s - String.length suffix) s) as Hsplit.
    replace (String.length s - (String.length s - String.length suffix))%nat
      with (String.length suffix) in Hsplit by lia.
    rewrite Hsub in Hsplit. apply Hsplit. lia.
  - intros [stem ->]. rewrite length_app_string. split; [lia |].
    replace (String.length stem + String.length suffix - String.length suffix)%nat
      with (String.length stem) by lia.
    by rewrite substring_skip, substring_all.
Qed.

(** X8: [listMemoryFiles] returns, each once, the entries of the directory
    whose name ends in [.md], that is the names [stem.md], and nothing
    else; it fails when the directory is absent. *)
Theorem listMemoryFiles_markdown w :
  (∀ names, (listMemoryFiles w).1 = Resolved names →
     NoDup names ∧
     ∀ n, n ∈ names ↔
          (∃ node, Fs.lookupNode n (fs w) = Some node) ∧ ∃ stem, n = stem +:+ ".md") ∧
  (Fs.bank (fs w) = None → ∃ e, (listMemoryFiles w).1 = Rejected e).
Proof.
  rewrite listMemoryFiles_eq. unfold Fs.readdir, Fs.lookupNode.
  destruct (Fs.bank (fs w)) as [d |]; cbn; split; try done.
  - intros names [= <-]. unfold markdown. split.
    + apply NoDup_ListNoDup, List.NoDup_filter, NoDup_ListNoDup, NoDup_fst_map_to_list.
    + intros n. rewrite list_elem_of_In, List.filter_In, <- list_elem_of_In.
      rewrite endsWith_spec, list_elem_of_fmap.
      split; intros [Hin Hmd]; (split; [| exact Hmd]).
      * destruct Hin as ([n' node] & -> & Hin). exists node.
        by apply elem_of_map_to_list.
      * destruct Hin as (node & Hnode). exists (n, node).
        split; [done | by apply elem_of_map_to_list].
  - intros _. eauto.
Qed.

Lemma listMemoryFiles_markdown_witness :
  (listMemoryFiles StoreScenario.handEdited).1 = Resolved ["progress.md"] ∧
  NoDup ["progress.md"] ∧
  (∀ n, n ∈ ["progress.md"] ↔
        (∃ node, Fs.lookupNode n (fs StoreScenario.handEdited) = Some node) ∧
        ∃ stem, n = stem +:+ ".md") ∧
  ∃ e, (listMemoryFiles StoreScenario.fresh).1 = Rejected e.
Proof.
  destruct (listMemoryFiles_markdown StoreScenario.handEdited) as (Hok & _).
  destruct (listMemoryFiles_markdown StoreScenario.fresh) as (_ & Habsent).
  destruct (Hok ["progress.md"]) as (Hnodup & Hin); [reflexivity |].
  split; [reflexivity |]. split; [exact Hnodup |]. split; [exact Hin |].
  apply Habsent. reflexivity.
Defined.





(** The calls of the file system leave the flag of the manager alone. *)
Lemma forOf_initialized (files : list DefaultFile) :
  ∀ w o w',
    forOf files (fun file =>
      present <- fs_pathExists (name file) ;;
      if negb present then fs_writeFile (name file) (content file) else ret tt) w
    = (o, w') →
    initialized w' = initialized w.
Proof.
  induction files as [| file files IH]; intros w o w'.
  - by intros [= <- <-].
  - cbn [forOf]. unfold bind at 1 2, fs_pathExists, fsRead.
    destruct (negb (Fs.pathExists (name file) (fs w))).
    + unfold fs_writeFile, fsUpdate. cbn [fs logCall].
      destruct (Fs.writeFile (name file) (content file) (fs w)) as [e | f].
      * by intros [= <- <-].
      * intros Hrest. by rewrite (IH _ _ _ Hrest).
    + unfold ret at 1. intros Hrest. by rewrite (IH _ _ _ Hrest).
Qed.

(** X10: an [init()] that fails leaves the manager uninitialized, so that
    a later [init()] tries again; and [init()] fails only on a manager that
    was not initialized. *)
Theorem init_failure_not_initialized w (e : Fs.IOError) w' :
  init w = (Rejected e, w') →
  initialized w = false ∧ initialized w' = false.
Proof.
  unfold init. destruct (initialized w) eqn:Hinit; [discriminate |].
  unfold tryCatch, bind at 1, fs_ensureDir, fsUpdate, throw.
  destruct (Fs.ensureDir (fs w)) as [e1 | f1].
  - by intros [= <- <-].
  - unfold bind.
    destruct (ensureDefaultFiles _) as [[[] | e2] w2] eqn:Hseed; [discriminate |].
    intros [= <- <-]. split; [done |].
    by rewrite (forOf_initialized _ _ _ _ Hseed).
Qed.

Lemma init_failure_not_initialized_witness :
  init MoreScenario.locked =
    (Rejected (Fs.EROFS "mkdir" "."), (init MoreScenario.locked).2) ∧
  initialized MoreScenario.locked = false ∧
  initialized (init MoreScenario.locked).2 = false.
Proof.
  split; [reflexivity |].
  apply (init_failure_not_initialized MoreScenario.locked (Fs.EROFS "mkdir" ".")).
  reflexivity.
Defined.

End StoreMore.

(** * More of the context cache *)

Section CacheMore.
Import MemoryManager ContextManager.

Implicit Types (w : World) (k v : string) (c : LRU.LRUCache).

Lemma find_without_same k (es : list LRU.Entry) :
  List.find (LRU.hasKey k) (LRU.without k es) = None.
Proof.
  induction es as [| e es IH]; [done |].
  unfold LRU.without in *. cbn [List.filter].
  destruct (LRU.hasKey k e) eqn:He; cbn [negb List.find]; [exact IH |].
  by rewrite He.
Qed.

Lemma find_without_other j k (es : list LRU.Entry) :
  j ≠ k → List.find (LRU.hasKey j) (LRU.without k es) = List.find (LRU.hasKey j) es.
Proof.
  intros Hne. induction es as [| e es IH]; [done |].
  unfold LRU.without in *. cbn [List.filter List.find].
  destruct (LRU.hasKey k e) eqn:Hk; cbn [negb List.find].
  - destruct (LRU.hasKey j e) eqn:Hj; [| exact IH].
    unfold LRU.hasKey in Hk, Hj. apply String.eqb_eq in Hk, Hj. congruence.
  - by rewrite IH.
Qed.

Lemma find_hasKey k (es : list LRU.Entry) (e : LRU.Entry) :
  List.find (LRU.hasKey k) es = Some e → LRU.hasKey k e = true.
Proof. intros Hfind. by apply List.find_some in Hfind as [_ ?]. Qed.

(** A [get] does not change what the next [get] of the key finds at that
    time. *)
Lemma live_after_get k (now : Z) c :
  LRU.live CACHE_OPTIONS k now (LRU.get CACHE_OPTIONS k now c).2 =
  LRU.live CACHE_OPTIONS k now c.
Proof.
  unfold LRU.get, LRU.live.
  destruct (List.find (LRU.hasKey k) (LRU.entries c)) as [e |] eqn:Hfind; cbn [snd].
  - destruct (LRU.isStale CACHE_OPTIONS now e) eqn:Hstale; cbn [snd LRU.delete LRU.entries].
    + by rewrite find_without_same.
    + cbn [List.find]. by rewrite (find_hasKey _ _ _ Hfind), Hstale.
  - by rewrite Hfind.
Qed.

(** X11: invalidation. [invalidateContext(key)] touches neither the store
    nor the entries of other keys, and the [getContext(key)] that follows
    goes to the store: it makes one read and returns what the store holds,
    or fails as the store does. *)
Theorem invalidate_then_get w k :
  let w1 := (invalidateContext k w).2 in
  fs w1 = fs w ∧ calls w1 = calls w ∧
  (∀ j now, j ≠ k →
     LRU.live CACHE_OPTIONS j now (contextCache w1) =
     LRU.live CACHE_OPTIONS j now (contextCache w)) ∧
  (getContext k w1).1 =
    match Fs.readFile k (fs w) with
    | inr content => Resolved content
    | inl e => Rejected e
    end ∧
  storeReads (getContext k w1).2 = S (storeReads w).
Proof.
  cbn zeta. unfold invalidateContext. cbn [snd].
  split; [done |]. split; [done |]. split.
  - intros j now Hj. unfold LRU.live. cbn. by rewrite find_without_other.
  - destruct (getContext_load k (setCache (LRU.delete k (contextCache w)) w))
      as (w2 & Hget & Hcalls & _).
    { unfold LRU.live. cbn. by rewrite find_without_same. }
    rewrite Hget. cbn [fst snd fs setCache]. split; [done |].
    by apply (storeReads_after_read k).
Qed.

Lemma invalidate_then_get_witness :
  "activeContext.md" ≠ "progress.md" ∧
  LRU.live CACHE_OPTIONS "activeContext.md" 0
    (contextCache (invalidateContext "progress.md" CacheScenario.cached).2) =
  LRU.live CACHE_OPTIONS "activeContext.md" 0 (contextCache CacheScenario.cached).
Proof.
  split; [discriminate |].
  destruct (invalidate_then_get CacheScenario.cached "progress.md")
    as (_ & _ & Hother & _).
  apply Hother. discriminate.
Defined.

(** X12: a [getContext] that fails caches nothing: when the cache has
    nothing truthy for the key and the read of the store fails,
    [getContext] rejects with the error of the store, the store is as
    before, and the next [getContext] of the key reads the store again. *)
Theorem getContext_failure_not_cached w k (e : Fs.IOError) :
  truthy (LRU.live CACHE_OPTIONS k (clock w) (contextCache w)) = false →
  Fs.readFile k (fs w) = inl e →
  ∃ w', getContext k w = (Rejected e, w') ∧ fs w' = fs w ∧
        storeReads (getContext k w').2 = S (storeReads w').
Proof.
  intros Hfalsy Hfile.
  assert (Hrun : getContext k w =
            (Rejected e,
             logCall (Fs.CallReadFile k)
               (setCache (LRU.get CACHE_OPTIONS k (clock w) (contextCache w)).2 w))).
  { unfold getContext, bind at 1. rewrite cache_get_eq.
    assert (Hload : tryCatch
              (content <- readMemoryFile k ;; cache_set k content ;;; ret content)
              (fun error => throw error)
              (setCache (LRU.get CACHE_OPTIONS k (clock w) (contextCache w)).2 w) =
            (Rejected e,
             logCall (Fs.CallReadFile k)
               (setCache (LRU.get CACHE_OPTIONS k (clock w) (contextCache w)).2 w))).
    { unfold tryCatch, bind at 1. rewrite readMemoryFile_eq. cbn [fs setCache].
      by rewrite Hfile. }
    destruct (LRU.live CACHE_OPTIONS k (clock w) (contextCache w)) as [cached |];
      [rewrite Hfalsy |]; exact Hload. }
  eexists. split; [exact Hrun |]. split; [done |].
  destruct (getContext_load k
              (logCall (Fs.CallReadFile k)
                 (setCache (LRU.get CACHE_OPTIONS k (clock w) (contextCache w)).2 w)))
    as (w2 & Hget & Hcalls & _).
  { cbn [clock contextCache logCall setCache]. by rewrite live_after_get. }
  rewrite Hget. cbn [snd]. by apply (storeReads_after_read k).
Qed.

Lemma getContext_failure_not_cached_witness :
  truthy (LRU.live CACHE_OPTIONS "missing.md" (clock StoreScenario.seeded)
            (contextCache StoreScenario.seeded)) = false ∧
  Fs.readFile "missing.md" (fs StoreScenario.seeded) = inl (Fs.ENOENT "open" "missing.md") ∧
  ∃ w', getContext "missing.md" StoreScenario.seeded =
          (Rejected (Fs.ENOENT "open" "missing.md"), w') ∧
        fs w' = fs StoreScenario.seeded ∧
        storeReads (getContext "missing.md" w').2 = S (storeReads w').
Proof.
  split; [reflexivity |]. split; [reflexivity |].
  apply (getContext_failure_not_cached StoreScenario.seeded "missing.md"); reflexivity.
Defined.

(** X13: the cache does not see a write that goes to the store directly.
    When the cache holds a live, non-empty entry for a key and
    [writeMemoryFile] writes another content for it, the store returns the
    new content and [getContext] still returns the cached one: it is for
    the writer to call [invalidateContext]. *)
Theorem direct_write_leaves_cache_stale w k (old v : string) w1 :
  LRU.live CACHE_OPTIONS k (clock w) (contextCache w) = Some old →
  old ≠ "" →
  writeMemoryFile k v w = (Resolved tt, w1) →
  (readMemoryFile k w1).1 = Resolved v ∧ (getContext k w1).1 = Resolved old.
Proof.
  intros Hlive Hold Hwrite.
  destruct (writeMemoryFile_frame _ _ _ _ _ Hwrite) as (Hcache & Hclock & Hfile).
  split.
  - rewrite readMemoryFile_eq. cbn [fst]. by rewrite (Hfile eq_refl).
  - destruct (getContext_hit k old w1) as (w2 & -> & _); [| done | done].
    by rewrite Hcache, Hclock.
Qed.

Lemma direct_write_leaves_cache_stale_witness :
  LRU.live CACHE_OPTIONS "activeContext.md" (clock CacheScenario.cached)
           (contextCache CacheScenario.cached) = Some "X" ∧
  writeMemoryFile "activeContext.md" "Y" CacheScenario.cached =
    (Resolved tt, CacheScenario.stale) ∧
  (readMemoryFile "activeContext.md" CacheScenario.stale).1 = Resolved "Y" ∧
  (getContext "activeContext.md" CacheScenario.stale).1 = Resolved "X".
Proof.
  split; [reflexivity |]. split; [reflexivity |].
  apply (direct_write_leaves_cache_stale CacheScenario.cached "activeContext.md" "X" "Y");
    [reflexivity | discriminate | reflexivity].
Defined.

Lemma live_set_at k v (t now : Z) c :
  LRU.live CACHE_OPTIONS k now (LRU.set CACHE_OPTIONS k v t c) =
    (if (900000 <? now - t)%Z then None else Some v).
Proof.
  unfold LRU.live, LRU.set.
  destruct (List.find (LRU.hasKey k) (LRU.entries c)); cbn [LRU.entries List.find];
    unfold LRU.hasKey at 1; cbn [LRU.key]; rewrite String.eqb_refl;
    unfold LRU.isStale; cbn [LRU.start LRU.value LRU.ttl CACHE_OPTIONS];
    change (1000 * 60 * 15)%Z with 900000%Z; by destruct (900000 <? now - t)%Z.
Qed.

(** X14: expiry. The entry that [updateContext] stores is served from the
    cache for the next fifteen minutes, and once more than fifteen minutes
    have passed [getContext] reads the store again. *)
Theorem cache_entry_expires w k v w1 (dt : Z) :
  v ≠ "" →
  updateContext k v w = (Resolved tt, w1) →
  ((dt < 1000 * 60 * 15)%Z →
     ∃ w2, getContext k (advance dt w1) = (Resolved v, w2) ∧ calls w2 = calls w1) ∧
  ((1000 * 60 * 15 < dt)%Z →
     (getContext k (advance dt w1)).1 = Resolved v ∧
     storeReads (getContext k (advance dt w1)).2 = S (storeReads w1)).
Proof.
  intros Hv Hupdate.
  assert (Hlive : LRU.live CACHE_OPTIONS k (clock w1 + dt) (contextCache w1) =
                  (if (900000 <? dt)%Z then None else Some v) ∧
                  Fs.readFile k (fs w1) = inr v).
  { rewrite updateContext_unfold in Hupdate.
    destruct (writeMemoryFile k v w) as [[[] | e] w0] eqn:Hwrite; [| discriminate].
    injection Hupdate as <-. cbn [clock contextCache fs setCache].
    rewrite live_set_at. split.
    - by replace (clock w0 + dt - clock w0)%Z with dt by lia.
    - by apply (writeMemoryFile_frame _ _ _ _ _ Hwrite). }
  destruct Hlive as (Hlive & Hfile). split.
  - intros Hearly.
    destruct (getContext_hit k v (advance dt w1)) as (w2 & Hget & Hcalls & _); [| done |].
    + cbn [clock contextCache advance]. rewrite Hlive.
      destruct (Z.ltb_spec 900000 dt); [lia | done].
    + by exists w2.
  - intros Hlate.
    destruct (getContext_load k (advance dt w1)) as (w2 & Hget & Hcalls & _).
    + cbn [clock contextCache advance]. rewrite Hlive.
      destruct (Z.ltb_spec 900000 dt); [done | lia].
    + rewrite Hget. cbn [fst snd fs advance]. rewrite Hfile. split; [done |].
      by apply (storeReads_after_read k).
Qed.

Lemma cache_entry_expires_witness :
  updateContext "activeContext.md" "X" StoreScenario.seeded =
    (Resolved tt, CacheScenario.cached) ∧
  (∃ w2, getContext "activeContext.md" (advance 899999 CacheScenario.cached) =
           (Resolved "X", w2) ∧ calls w2 = calls CacheScenario.cached) ∧
  storeReads (getContext "activeContext.md" (advance 900001 CacheScenario.cached)).2 =
    S (storeReads CacheScenario.cached).
Proof.
  split; [reflexivity |].
  destruct (cache_entry_expires StoreScenario.seeded "activeContext.md" "X"
              CacheScenario.cached 899999) as (Hearly & _);
    [discriminate | reflexivity |].
  destruct (cache_entry_expires StoreScenario.seeded "activeContext.md" "X"
              CacheScenario.cached 900001) as (_ & Hlate);
    [discriminate | reflexivity |].
  split; [apply Hearly; lia | apply Hlate; lia].
Defined.

(** ** The cache stays within its bounds *)

Lemma removelast_keeps_in {A} (x : A) (l : list A) :
  x ∈ List.removelast l → x ∈ l.
Proof.
  induction l as [| a [| b l] IH]; cbn; [done | by intros ?%elem_of_nil |].
  intros [-> | Hin]%elem_of_cons; [by left | right; by apply IH].
Qed.

Lemma removelast_NoDup {A} (l : list A) : NoDup l → NoDup (List.removelast l).
Proof.
  induction l as [| a [| b l] IH]; cbn; [done | constructor |].
  intros [Ha Hrest]%NoDup_cons. apply NoDup_cons. split; [| by apply IH].
  intros Hin. apply Ha. by apply (removelast_keeps_in a (b :: l)).
Qed.

Lemma removelast_length {A} (l : list A) :
  length (List.removelast l) = pred (length l).
Proof. induction l as [| a [| b l] IH]; cbn in *; [done | done | by rewrite IH]. Qed.

Lemma removelast_fmap {A B} (f : A → B) (l : list A) :
  f <$> List.removelast l = List.removelast (f <$> l).
Proof. induction l as [| a [| b l] IH]; cbn in *; [done | done | by rewrite IH]. Qed.

Lemma without_keys k (es : list LRU.Entry) :
  (k ∉ (LRU.key <$> LRU.without k es)) ∧
  (NoDup (LRU.key <$> es) → NoDup (LRU.key <$> LRU.without k es)) ∧
  (length (LRU.without k es) <= length es)%nat ∧
  (∀ j, j ∈ (LRU.key <$> LRU.without k es) → j ∈ (LRU.key <$> es)).
Proof.
  unfold LRU.without. induction es as [| e es (IH1 & IH2 & IH3 & IH4)].
  - split; [by intros ?%elem_of_nil |]. by split; [| split].
  - cbn [List.filter]. destruct (LRU.hasKey k e) eqn:He; cbn [negb fmap list_fmap length].
    + split; [done |]. split; [| split].
      * intros [_ ?]%NoDup_cons. by apply IH2.
      * lia.
      * intros j Hj. right. by apply IH4.
    + split; [| split; [| split]].
      * intros [Heq | Hin]%elem_of_cons; [| done].
        unfold LRU.hasKey in He. apply String.eqb_neq in He. congruence.
      * intros [Hnotin Hnodup]%NoDup_cons. apply NoDup_cons. split; [| by apply IH2].
        intros Hin. apply Hnotin. by apply IH4.
      * lia.
      * intros j [-> | Hj]%elem_of_cons; [by left | right; by apply IH4].
Qed.

Lemma without_shrinks k (es : list LRU.Entry) (e : LRU.Entry) :
  List.find (LRU.hasKey k) es = Some e →
  (S (length (LRU.without k es)) <= length es)%nat.
Proof.
  unfold LRU.without. induction es as [| a es IH]; [done |].
  cbn [List.find List.filter]. destruct (LRU.hasKey k a) eqn:Ha; cbn [negb length].
  - intros _. pose proof (without_keys k es) as (_ & _ & Hlen & _).
    unfold LRU.without in Hlen. lia.
  - intros Hfind. specialize (IH Hfind). lia.
Qed.

Lemma find_none_key k (es : list LRU.Entry) :
  List.find (LRU.hasKey k) es = None → k ∉ LRU.key <$> es.
Proof.
  intros Hnone ([key v t] & Hk & Hin%list_elem_of_In)%list_elem_of_fmap.
  pose proof (List.find_none _ _ Hnone _ Hin) as Hfalse.
  unfold LRU.hasKey in Hfalse. cbn in Hk, Hfalse. subst.
  by rewrite String.eqb_refl in Hfalse.
Qed.

(** A cache is within its bounds when it holds at most [max] entries and no
    two of them for one key. *)
Lemma get_bounded k (now : Z) c :
  (length (LRU.entries c) <= 100)%nat ∧ NoDup (cacheKeys c) →
  (length (LRU.entries (LRU.get CACHE_OPTIONS k now c).2) <= 100)%nat ∧
  NoDup (cacheKeys (LRU.get CACHE_OPTIONS k now c).2).
Proof.
  unfold cacheKeys, LRU.get. intros [Hlen Hnodup].
  destruct (List.find (LRU.hasKey k) (LRU.entries c)) as [e |] eqn:Hfind; [| done].
  pose proof (without_keys k (LRU.entries c)) as (Hk & Hnd & Hle & _).
  destruct (LRU.isStale CACHE_OPTIONS now e); cbn [snd LRU.entries LRU.delete].
  - split; [lia | by apply Hnd].
  - pose proof (without_shrinks _ _ _ Hfind). split; [cbn; lia |].
    cbn [fmap list_fmap]. apply NoDup_cons. split; [| by apply Hnd].
    apply find_hasKey in Hfind. unfold LRU.hasKey in Hfind.
    apply String.eqb_eq in Hfind. by rewrite Hfind.
Qed.

Lemma set_bounded k v (now : Z) c :
  (length (LRU.entries c) <= 100)%nat ∧ NoDup (cacheKeys c) →
  (length (LRU.entries (LRU.set CACHE_OPTIONS k v now c)) <= 100)%nat ∧
  NoDup (cacheKeys (LRU.set CACHE_OPTIONS k v now c)).
Proof.
  unfold cacheKeys, LRU.set. intros [Hlen Hnodup].
  destruct (List.find (LRU.hasKey k) (LRU.entries c)) as [e |] eqn:Hfind;
    cbn [LRU.entries fmap list_fmap LRU.key length].
  - pose proof (without_keys k (LRU.entries c)) as (Hk & Hnd & _).
    pose proof (without_shrinks _ _ _ Hfind).
    split; [lia |]. apply NoDup_cons. split; [done | by apply Hnd].
  - apply find_none_key in Hfind. cbn [LRU.max CACHE_OPTIONS].
    destruct (Nat.leb_spec 100 (length (LRU.entries c))) as [Hfull | Hroom].
    + split; [rewrite removelast_length; lia |].
      apply NoDup_cons. rewrite removelast_fmap. split.
      * intros Hin. apply Hfind. by apply removelast_keeps_in.
      * by apply removelast_NoDup.
    + split; [lia |]. by apply NoDup_cons.
Qed.

Lemma delete_bounded k c :
  (length (LRU.entries c) <= 100)%nat ∧ NoDup (cacheKeys c) →
  (length (LRU.entries (LRU.delete k c)) <= 100)%nat ∧ NoDup (cacheKeys (LRU.delete k c)).
Proof.
  unfold cacheKeys, LRU.delete. cbn [LRU.entries]. intros [Hlen Hnodup].
  pose proof (without_keys k (LRU.entries c)) as (_ & Hnd & Hle & _).
  split; [lia | by apply Hnd].
Qed.

Lemma load_eq k w :
  tryCatch (content <- readMemoryFile k ;; cache_set k content ;;; ret content)
           (fun error => throw error) w =
    match Fs.readFile k (fs w) with
    | inr content =>
        (Resolved content,
         setCache (LRU.set CACHE_OPTIONS k content (clock w) (contextCache w))
                  (logCall (Fs.CallReadFile k) w))
    | inl e => (Rejected e, logCall (Fs.CallReadFile k) w)
    end.
Proof.
  unfold tryCatch, bind at 1. rewrite readMemoryFile_eq.
  by destruct (Fs.readFile k (fs w)).
Qed.

Lemma getContext_cache k w :
  contextCache (getContext k w).2 = (LRU.get CACHE_OPTIONS k (clock w) (contextCache w)).2 ∨
  ∃ content,
    contextCache (getContext k w).2 =
      LRU.set CACHE_OPTIONS k content (clock w)
        (LRU.get CACHE_OPTIONS k (clock w) (contextCache w)).2.
Proof.
  remember (getContext k w) as r eqn:Hr.
  unfold getContext, bind at 1 in Hr. rewrite cache_get_eq in Hr.
  destruct (LRU.live CACHE_OPTIONS k (clock w) (contextCache w)) as [cached |];
    [destruct (truthy (Some cached)); [subst r; by left |] |];
    lazy beta iota zeta in Hr; rewrite load_eq in Hr; cbn [fs setCache] in Hr;
    (destruct (Fs.readFile k (fs w)) as [e | content]; subst r;
     [by left | right; by exists content]).
Qed.

(** X15: the cache stays within its bounds. Whatever calls are made on the
    context manager, and however much time passes between them, a cache
    that holds at most 100 entries, no two of them for one key, still does
    so afterwards; the cache of a new context manager is such a cache. *)
Theorem cache_stays_bounded (cs : list ContextCall) w :
  (length (LRU.entries (contextCache w)) <= 100)%nat ∧ NoDup (cacheKeys (contextCache w)) →
  (length (LRU.entries (contextCache (afterCalls cs w))) <= 100)%nat ∧
  NoDup (cacheKeys (contextCache (afterCalls cs w))).
Proof.
  revert w. induction cs as [| c cs IH]; intros w Hw; [exact Hw |].
  cbn [afterCalls foldl]. apply IH. destruct c as [k | k v | k | | | dt]; cbn [afterCall].
  - destruct (getContext_cache k w) as [-> | (content & ->)].
    + by apply get_bounded.
    + by apply set_bounded, get_bounded.
  - rewrite updateContext_unfold.
    destruct (writeMemoryFile k v w) as [[[] | e] w0] eqn:Hwrite;
      destruct (writeMemoryFile_frame _ _ _ _ _ Hwrite) as (Hcache & _);
      cbn [snd contextCache setCache]; rewrite Hcache; [by apply set_bounded | done].
  - by apply delete_bounded.
  - unfold getAllContextKeys, tryCatch. rewrite listMemoryFiles_eq.
    by destruct (Fs.readdir (fs w)).
  - destruct (getCompleteContext w) as [o w'] eqn:Hrun.
    rewrite getCompleteContext_unfold in Hrun.
    destruct (Fs.readdir (fs w)) as [e | names].
    + by injection Hrun as <- <-.
    + destruct (readInto_fold_frame _ _ _ _ _ Hrun) as (Hcache & _).
      cbn [snd]. by rewrite Hcache.
  - exact Hw.
Qed.

Lemma cache_stays_bounded_witness :
  ((length (LRU.entries (contextCache StoreScenario.seeded)) <= 100)%nat ∧
   NoDup (cacheKeys (contextCache StoreScenario.seeded))) ∧
  (length (LRU.entries (contextCache
     (afterCalls [DoUpdateContext "notes.md" "a"; DoGetContext "progress.md";
                  DoAdvance 5; DoInvalidateContext "notes.md"]
        StoreScenario.seeded))) <= 100)%nat ∧
  NoDup (cacheKeys (contextCache
     (afterCalls [DoUpdateContext "notes.md" "a"; DoGetContext "progress.md";
                  DoAdvance 5; DoInvalidateContext "notes.md"]
        StoreScenario.seeded))).
Proof.
  assert (Hstart : (length (LRU.entries (contextCache StoreScenario.seeded)) <= 100)%nat ∧
                   NoDup (cacheKeys (contextCache StoreScenario.seeded))).
  { split; [vm_compute; lia | vm_compute; constructor]. }
  split; [exact Hstart |].
  exact (cache_stays_bounded
           [DoUpdateContext "notes.md" "a"; DoGetContext "progress.md";
            DoAdvance 5; DoInvalidateContext "notes.md"]
           StoreScenario.seeded Hstart).
Defined.

End CacheMore.

(** * The tools *)

Section ToolsProofs.
Import MemoryManager ContextManager Tools.

Implicit Types (w : World) (k v : string).

Lemma writeMemoryFile_writable k v w :
  Fs.readOnly (fs w) = false → ∃ w1, writeMemoryFile k v w = (Resolved tt, w1).
Proof.
  intros Hrw. rewrite writeMemoryFile_eq. unfold Fs.ensureDir, Fs.writeFile.
  destruct (Fs.bank (fs w)) as [d |] eqn:Hbank; rewrite ?Hrw; cbn;
    rewrite ?Hrw, ?Hbank; eauto.
Qed.


Lemma write_memory_file_eq k v w :
  write_memory_file k v w =
    match writeMemoryFile k v w with
    | (Resolved _, w1) =>
        (Resolved (Success k), setCache (LRU.delete k (contextCache w1)) w1)
    | (Rejected e, w1) => (Resolved (Failure (Fs.message e)), w1)
    end.
Proof.
  unfold write_memory_file, tryCatch, bind, invalidateContext, ret.
  by destruct (writeMemoryFile k v w) as [[[] | e] w1].
Qed.



Lemma update_memory_file_eq k v w :
  update_memory_file k v w =
    match Fs.readFile k (fs w) with
    | inl e => (Resolved (Failure (Fs.message e)), logCall (Fs.CallReadFile k) w)
    | inr _ =>
        match writeMemoryFile k v (logCall (Fs.CallReadFile k) w) with
        | (Resolved _, w1) =>
            (Resolved (Success k), setCache (LRU.delete k (contextCache w1)) w1)
        | (Rejected e, w1) => (Resolved (Failure (Fs.message e)), w1)
        end
    end.
Proof.
  unfold update_memory_file, tryCatch, bind at 1. rewrite readMemoryFile_eq.
  destruct (Fs.readFile k (fs w)) as [e | old]; [done |].
  unfold bind, invalidateContext, ret.
  by destruct (writeMemoryFile k v _) as [[[] | e] w1].
Qed.

(** X17: the tool [update_memory_file] writes only over a document that can
    be read. When the document is missing, the reply is a failure with the
    message of the read, and nothing is created: store and cache are as
    before. When the document is there and the file system can be written,
    the tool succeeds, the store holds the new content and the cache no
    entry for the name. *)
Theorem update_memory_file_needs_document w k v :
  (∀ e, Fs.readFile k (fs w) = inl e →
     ∃ w1, update_memory_file k v w = (Resolved (Failure (Fs.message e)), w1) ∧
           fs w1 = fs w ∧ contextCache w1 = contextCache w) ∧
  (∀ old, Fs.readFile k (fs w) = inr old → Fs.readOnly (fs w) = false →
     ∃ w1, update_memory_file k v w = (Resolved (Success k), w1) ∧
           Fs.readFile k (fs w1) = inr v ∧
           ∀ now, LRU.live CACHE_OPTIONS k now (contextCache w1) = None).
Proof.
  split.
  - intros e Hfile. rewrite update_memory_file_eq, Hfile. by eexists.
  - intros old Hfile Hrw. rewrite update_memory_file_eq, Hfile.
    destruct (writeMemoryFile_writable k v (logCall (Fs.CallReadFile k) w) Hrw)
      as (w0 & Hwrite).
    destruct (writeMemoryFile_frame _ _ _ _ _ Hwrite) as (_ & _ & Hnew).
    rewrite Hwrite. eexists. split; [reflexivity |]. split; [by apply Hnew |].
    intros now. unfold LRU.live. cbn. by rewrite find_without_same.
Qed.

Lemma update_memory_file_needs_document_witness :
  (Fs.readFile "missing.md" (fs StoreScenario.seeded) = inl (Fs.ENOENT "open" "missing.md") ∧
   ∃ w1, update_memory_file "missing.md" "new" StoreScenario.seeded =
           (Resolved (Failure (Fs.message (Fs.ENOENT "open" "missing.md"))), w1) ∧
         fs w1 = fs StoreScenario.seeded ∧
         contextCache w1 = contextCache StoreScenario.seeded) ∧
  (Fs.readFile "activeContext.md" (fs CacheScenario.cached) = inr "X" ∧
   Fs.readOnly (fs CacheScenario.cached) = false ∧
   ∃ w1, update_memory_file "activeContext.md" "new" CacheScenario.cached =
           (Resolved (Success "activeContext.md"), w1) ∧
         Fs.readFile "activeContext.md" (fs w1) = inr "new" ∧
         ∀ now, LRU.live CACHE_OPTIONS "activeContext.md" now (contextCache w1) = None).
Proof.
  destruct (update_memory_file_needs_document StoreScenario.seeded "missing.md" "new")
    as (Hmissing & _).
  destruct (update_memory_file_needs_document CacheScenario.cached "activeContext.md" "new")
    as (_ & Hthere).
  split.
  - split; [reflexivity |]. apply Hmissing. reflexivity.
  - split; [reflexivity |]. split; [reflexivity |]. apply (Hthere "X"); reflexivity.
Defined.

(** X18: the tool [get_memory_bank_context] never leaves its operation
    pending. Whatever the state, the operation it started is in the tracker
    when the handler returns, completed with the object of the context map
    when the reply is a success, failed with the message of the error
    when it is not; the reply carries the id of that operation, and the
    records of other operations and the mode are untouched. *)
Theorem context_tool_finishes_operation (objectOf : gmap string string → JsValue)
    (operationId : string) (s : Server) :
  let r := get_memory_bank_context objectOf operationId s in
  (∃ op, AsyncManager.getOperationResult operationId (asyncManager r.2) = Some op ∧
         AsyncManager.startTime op = clock (world s) ∧
         match r.1 with
         | Started i _ =>
             i = operationId ∧ AsyncManager.status op = AsyncManager.completed ∧
             ∃ contextMap,
               (getCompleteContext (world s)).1 = Resolved contextMap ∧
               AsyncManager.result op = Some (objectOf contextMap)
         | NotDone i err =>
             i = operationId ∧ AsyncManager.status op = AsyncManager.failed ∧
             AsyncManager.error op = Some err ∧
             ∃ e, (getCompleteContext (world s)).1 = Rejected e ∧ err = Fs.message e
         end) ∧
  (∀ j, j ≠ operationId →
     AsyncManager.getOperationResult j (asyncManager r.2) =
     AsyncManager.getOperationResult j (asyncManager s)) ∧
  world r.2 = (getCompleteContext (world s)).2 ∧
  modeManager r.2 = modeManager s.
Proof.
  cbn zeta. unfold get_memory_bank_context.
  set (started := (AsyncManager.startOperation operationId (clock (world s))
                     (asyncManager s)).2).
  assert (Hstarted : AsyncManager.operations started !! operationId =
            Some {| AsyncManager.status := AsyncManager.pending;
                    AsyncManager.startTime := clock (world s);
                    AsyncManager.endTime := None; AsyncManager.duration := None;
                    AsyncManager.result := None; AsyncManager.error := None |}).
  { apply lookup_insert_eq. }
  assert (Hother : ∀ j, j ≠ operationId →
            AsyncManager.operations started !! j =
            AsyncManager.operations (asyncManager s) !! j).
  { intros j Hj. cbn. by rewrite lookup_insert_ne. }
  destruct (getCompleteContext (world s)) as [[contextMap | err] w'];
    cbn [fst snd world asyncManager modeManager]; (split; [| split; [| done]]).
  - eexists. unfold AsyncManager.getOperationResult.
    rewrite (completeOperation_lookup _ _ _ _ _ Hstarted).
    split; [reflexivity |]. cbn. repeat split. by exists contextMap.
  - intros j Hj. unfold AsyncManager.getOperationResult.
    by rewrite completeOperation_other, Hother.
  - eexists. unfold AsyncManager.getOperationResult.
    rewrite (failOperation_lookup _ _ _ _ _ Hstarted).
    split; [reflexivity |]. cbn. repeat split. by exists err.
  - intros j Hj. unfold AsyncManager.getOperationResult.
    by rewrite failOperation_other, Hother.
Qed.

Lemma context_tool_finishes_operation_witness :
  "op-1" ≠ "op-2" ∧
  AsyncManager.getOperationResult "op-1"
    (asyncManager (get_memory_bank_context (fun _ => JsNull) "op-2" MoreScenario.server).2) =
  AsyncManager.getOperationResult "op-1" (asyncManager MoreScenario.server).
Proof.
  split; [discriminate |].
  destruct (context_tool_finishes_operation (fun _ => JsNull) "op-2" MoreScenario.server)
    as (_ & Hother & _).
  apply Hother. discriminate.
Defined.

Lemma getContext_frame k w (o : Outcome string) w1 :
  getContext k w = (o, w1) → fs w1 = fs w ∧ clock w1 = clock w.
Proof.
  unfold getContext, bind at 1. rewrite cache_get_eq.
  destruct (LRU.live CACHE_OPTIONS k (clock w) (contextCache w)) as [cached |];
    [destruct (truthy (Some cached)); [by intros [= <- <-] |] |];
    lazy beta iota zeta; rewrite load_eq; cbn [fs setCache];
    (destruct (Fs.readFile k (fs w)) as [e | content]; by intros [= <- <-]).
Qed.

Lemma insightsSection_not_empty (c taskId insights stamp : string) :
  c +:+ insightsSection taskId insights stamp ≠ "".
Proof.
  intros Hempty. apply (f_equal String.length) in Hempty.
  rewrite length_app_string in Hempty. unfold insightsSection in Hempty.
  rewrite length_app_string in Hempty. cbn in Hempty. lia.
Qed.

(** X19: the tool [document_insights]. Without [updateMemoryBank] it
    touches nothing. With it, and the active context readable, it appends
    the section of the insights to what [getContext] returned for
    [activeContext.md] and writes the result through the cache: the store
    holds it and the next [getContext] returns it without a call of the
    file system. When the active context cannot be read, the reply is a
    failure with the message of the error and the store is as before. *)
Theorem document_insights_appends (toISOString : Z → string)
    (taskId taskDescription insights : string) w :
  let insightRecord :=
    {| Tools.taskId := taskId; description := taskDescription;
       Tools.insights := insights; timestamp := toISOString (clock w) |} in
  let added := insightsSection taskId insights (toISOString (clock w)) in
  document_insights toISOString taskId taskDescription insights false w =
    (Resolved (Success insightRecord), w) ∧
  (∀ c w1, getContext "activeContext.md" w = (Resolved c, w1) →
     Fs.readOnly (fs w) = false →
     ∃ w2, document_insights toISOString taskId taskDescription insights true w =
             (Resolved (Success insightRecord), w2) ∧
           Fs.readFile "activeContext.md" (fs w2) = inr (c +:+ added) ∧
           ∃ w3, getContext "activeContext.md" w2 = (Resolved (c +:+ added), w3) ∧
                 calls w3 = calls w2) ∧
  (∀ e w1, getContext "activeContext.md" w = (Rejected e, w1) →
     document_insights toISOString taskId taskDescription insights true w =
       (Resolved (Failure (Fs.message e)), w1) ∧ fs w1 = fs w).
Proof.
  cbn zeta. split; [done |]. split.
  - intros c w1 Hget Hrw.
    destruct (getContext_frame _ _ _ _ Hget) as (Hfs & Hclock).
    destruct (writeMemoryFile_writable "activeContext.md"
                (c +:+ insightsSection taskId insights (toISOString (clock w))) w1)
      as (w0 & Hwrite); [by rewrite Hfs |].
    pose proof (updateContext_unfold "activeContext.md"
                  (c +:+ insightsSection taskId insights (toISOString (clock w))) w1)
      as Hupdate.
    rewrite Hwrite in Hupdate.
    unfold document_insights, tryCatch, bind. rewrite Hget, Hclock, Hupdate.
    eexists. split; [reflexivity |].
    destruct (updateContext_live _ _ _ _ Hupdate) as (_ & Hfile).
    split; [exact Hfile |].
    destruct (update_then_get _ _ _ _ (insightsSection_not_empty c _ _ _) Hupdate)
      as (w3 & Hget3 & Hcalls & _).
    by exists w3.
  - intros e w1 Hget.
    destruct (getContext_frame _ _ _ _ Hget) as (Hfs & _).
    unfold document_insights, tryCatch, bind. by rewrite Hget.
Qed.

Lemma document_insights_appends_witness :
  (getContext "activeContext.md" CacheScenario.cached =
     (Resolved "X", (getContext "activeContext.md" CacheScenario.cached).2) ∧
   Fs.readOnly (fs CacheScenario.cached) = false ∧
   ∃ w2, document_insights (fun _ => "2024-01-01T00:00:00.000Z") "T1" "task" "note" true
           CacheScenario.cached =
           (Resolved (Success {| Tools.taskId := "T1"; description := "task";
                                 Tools.insights := "note";
                                 timestamp := "2024-01-01T00:00:00.000Z" |}), w2) ∧
         Fs.readFile "activeContext.md" (fs w2) =
           inr ("X" +:+ insightsSection "T1" "note" "2024-01-01T00:00:00.000Z") ∧
         ∃ w3, getContext "activeContext.md" w2 =
                 (Resolved ("X" +:+ insightsSection "T1" "note" "2024-01-01T00:00:00.000Z"),
                  w3) ∧
               calls w3 = calls w2) ∧
  (getContext "activeContext.md" MoreScenario.locked =
     (Rejected (Fs.ENOENT "open" "activeContext.md"),
      (getContext "activeContext.md" MoreScenario.locked).2) ∧
   document_insights (fun _ => "2024-01-01T00:00:00.000Z") "T1" "task" "note" true
     MoreScenario.locked =
     (Resolved (Failure (Fs.message (Fs.ENOENT "open" "activeContext.md"))),
      (getContext "activeContext.md" MoreScenario.locked).2) ∧
   fs (getContext "activeContext.md" MoreScenario.locked).2 = fs MoreScenario.locked).
Proof.
  destruct (document_insights_appends (fun _ => "2024-01-01T00:00:00.000Z")
              "T1" "task" "note" CacheScenario.cached) as (_ & Hok & _).
  destruct (document_insights_appends (fun _ => "2024-01-01T00:00:00.000Z")
              "T1" "task" "note" MoreScenario.locked) as (_ & _ & Hfail).
  split.
  - split; [reflexivity |]. split; [reflexivity |].
    apply (Hok "X" (getContext "activeContext.md" CacheScenario.cached).2); reflexivity.
  - split; [reflexivity |].
    apply (Hfail (Fs.ENOENT "open" "activeContext.md")
                 (getContext "activeContext.md" MoreScenario.locked).2).
    reflexivity.
Defined.

(** X20: the tools [generate_plan] and [execute_task] set the mode and
    finish their operation. Whatever the mode was, it is [plan] after
    [generate_plan] and [act] after [execute_task]; the operation that the
    tool started is completed when the handler returns, its result the
    object the tool built, its duration counted from its start; the store
    and the cache are not touched. *)
Theorem plan_act_tools_set_mode (toISOString : Z → string)
    (planOf : string → string → JsValue)
    (executionResultOf : string → string → string → JsValue)
    (taskId taskDescription : string) (flag : bool) (operationId : string) (s : Server) :
  let p := generate_plan toISOString planOf taskDescription flag operationId s in
  let x := execute_task toISOString executionResultOf taskId taskDescription flag
             operationId s in
  let now := clock (world s) in
  ModeManager.getCurrentMode (modeManager p.2) = "plan" ∧
  ModeManager.getCurrentMode (modeManager x.2) = "act" ∧
  AsyncManager.getOperationResult operationId (asyncManager p.2) =
    Some {| AsyncManager.status := AsyncManager.completed;
            AsyncManager.startTime := now; AsyncManager.endTime := Some now;
            AsyncManager.duration := Some (now - now);
            AsyncManager.result := Some (planOf taskDescription (toISOString now));
            AsyncManager.error := None |} ∧
  AsyncManager.getOperationResult operationId (asyncManager x.2) =
    Some {| AsyncManager.status := AsyncManager.completed;
            AsyncManager.startTime := now; AsyncManager.endTime := Some now;
            AsyncManager.duration := Some (now - now);
            AsyncManager.result :=
              Some (executionResultOf taskId taskDescription (toISOString now));
            AsyncManager.error := None |} ∧
  world p.2 = world s ∧ world x.2 = world s.
Proof.
  cbn zeta. unfold generate_plan, execute_task.
  cbn [snd modeManager asyncManager world].
  assert (Hstarted :
    AsyncManager.operations
      (AsyncManager.startOperation operationId (clock (world s)) (asyncManager s)).2
      !! operationId =
    Some {| AsyncManager.status := AsyncManager.pending;
            AsyncManager.startTime := clock (world s);
            AsyncManager.endTime := None; AsyncManager.duration := None;
            AsyncManager.result := None; AsyncManager.error := None |}).
  { apply lookup_insert_eq. }
  unfold AsyncManager.getOperationResult.
  rewrite !(completeOperation_lookup _ _ _ _ _ Hstarted).
  unfold ModeManager.getCurrentMode, ModeManager.isPlanMode, ModeManager.isActMode.
  repeat split.
  - destruct (String.eqb_spec (ModeManager.currentMode (modeManager s)) "plan"); done.
  - destruct (String.eqb_spec (ModeManager.currentMode (modeManager s)) "act"); done.
Qed.

(** X21: the memory bank tools always reply. Whatever the state of the file
    system, the handlers of [read_memory_file], [write_memory_file],
    [list_memory_files] and [update_memory_file] resolve; none rejects. The
    reply of [read_memory_file] is the content the store has for the name,
    whatever the cache holds, or the message of the read that failed, and the
    reply of [list_memory_files] is the listing of the store or the message
    of its failure. *)
Theorem memory_tools_always_reply w k v :
  (∃ reply w', write_memory_file k v w = (Resolved reply, w')) ∧
  (∃ reply w', update_memory_file k v w = (Resolved reply, w')) ∧
  read_memory_file k w =
    (Resolved match Fs.readFile k (fs w) with
              | inr content => Success (k, content)
              | inl e => Failure (Fs.message e)
              end,
     logCall (Fs.CallReadFile k) w) ∧
  list_memory_files w =
    (Resolved match Fs.readdir (fs w) with
              | inr names => Success (markdown names)
              | inl e => Failure (Fs.message e)
              end,
     logCall Fs.CallReaddir w).
Proof.
  split; [| split; [| split]].
  - rewrite write_memory_file_eq.
    destruct (writeMemoryFile k v w) as [[[] | e] w1]; eauto.
  - rewrite update_memory_file_eq.
    destruct (Fs.readFile k (fs w)) as [e | old]; [eauto |].
    destruct (writeMemoryFile k v _) as [[[] | e] w1]; eauto.
  - unfold read_memory_file, tryCatch, bind. rewrite readMemoryFile_eq.
    by destruct (Fs.readFile k (fs w)).
  - unfold list_memory_files, tryCatch, bind. rewrite listMemoryFiles_eq.
    by destruct (Fs.readdir (fs w)).
Qed.

End ToolsProofs.
